(** * xivsimbot: the simulation mirror and the movement interpolator

    A shallow embedding of [xivsimbot/bot.py] (the [Player] record, the
    [SimState] clock and entity registry, the event loop of [XivSimClient]
    and the position updates it sends), of the parts of [xivsimbot/ai.py]
    that drive a controlled actor ([norm], [go_to], [consistent_shuffle],
    the waits on the clock and on abilities, the points on the circle) and
    of the event stream of [xivsimbot/geckos.py].

    Conventions of the embedding.
    - A Python [int] is a [Z]; a Python [float] is a real number [R]:
      arithmetic is exact, there is no rounding, overflow, infinity or NaN.
      Two things exact arithmetic does not show are modelled apart: [norm]
      on binary64 floats, where a square can underflow or overflow
      ([FloatAi]), and the [OverflowError] of turning an [int] of a payload
      into a float when it is too large ([py_float], [div_1000]).
    - A field that holds either an [int] or a [float] is a [num].
    - A [dict] is a [gmap]; a raised exception is the [Raise] branch of
      [result].
    - [time.time()] is an input: every operation that reads the wall clock
      takes the reading as its argument [now].  The readings a loop makes
      for one comparison each ([gc_abilities], the tests of the waits) are
      taken at one instant; [add_ability], whose two readings go into two
      deadlines, takes both, [now] and [later].
    - The [moving] flag is a [bool]; the 0 and 1 that arrive on the wire
      stand for their truth values.
    - A coroutine is run on the list of the wall clock readings it meets,
      one for each [await self.next_tick()]; with the clock running these
      readings are arbitrary, so every sequence of readings of [time()] that
      other tasks could cause between ticks is covered.  A wait that only
      reads the registry is run on ticks that carry the registry as well, as
      the other tasks left it.
    - A float literal is the real number its decimal notation writes.
    - An event of the loop is taken with its payload read; the packets of
      the stream are strings, and their decoding is a function given to the
      stream. *)

From Stdlib Require Import Floats.
From Stdlib Require Import ZArith Reals Lra Lia Ascii DecimalString DecimalZ.
From stdpp Require Import gmap strings list sorting.

(** ** Python values *)

Inductive exn : Set :=
  | KeyError
  | ZeroDivisionError
  | OverflowError
  | IndexError
  | AttributeError
  | TypeError.

Inductive result (A : Type) : Type :=
  | Ok (a : A)
  | Raise (e : exn).
Arguments Ok {A} a.
Arguments Raise {A} e.

#[global] Instance result_ret : MRet result := fun A a => Ok a.
#[global] Instance result_bind : MBind result := fun A B k r =>
  match r with
  | Ok a => k a
  | Raise e => Raise e
  end.

(** A Python number: [int] or [float]. *)
Inductive num : Type :=
  | Int (z : Z)
  | Flt (r : R).

(** The mathematical value of a number; Python compares and combines an
    [int] with a [float] by value. *)
Definition val (n : num) : R :=
  match n with
  | Int z => IZR z
  | Flt r => r
  end.

Definition is_int (n : num) : Prop :=
  match n with
  | Int _ => True
  | Flt _ => False
  end.

(** [n == m] on numbers. *)
Definition num_eqb (n m : num) : bool :=
  if Req_dec_T (val n) (val m) then true else false.

(** Truncation towards zero of a real: the integer part kept by [int(x)]
    for a float [x]. *)
Definition trunc (r : R) : Z :=
  if Rle_dec 0 r then Int_part r else (- Int_part (- r))%Z.

(** [int(x)]. *)
Definition py_int (n : num) : Z :=
  match n with
  | Int z => z
  | Flt r => trunc r
  end.

(** ** bot.py: entities *)

Module Enemy.
Record t : Type := mk
  { id : Z; name : string; x : num; y : num; angle : R }.
End Enemy.

Module Buff.
Record t : Type := mk { id : Z; deadline : R }.
End Buff.

Module Player.
Record t : Type := mk
  { id : Z;
    name : string;
    x : num;
    y : num;
    angle : num;
    moving : bool;
    buffs : gmap Z Buff.t }.

(** [Player(id=pid, name=name)]: the dataclass defaults. *)
Definition new (pid : Z) (nm : string) : t :=
  mk pid nm (Int 0) (Int 0) (Int 0) false ∅.

Definition reset (p : t) : t :=
  mk (id p) (name p) (Int 0) (Int 0) (Int 0) false ∅.

Definition add_buff (p : t) (bid : Z) (dl : R) : t :=
  mk (id p) (name p) (x p) (y p) (angle p) (moving p)
     (<[bid := Buff.mk bid dl]> (buffs p)).

(** [del self.buffs[id]] raises [KeyError] when the key is absent. *)
Definition remove_buff (p : t) (bid : Z) : result t :=
  match buffs p !! bid with
  | Some _ =>
      Ok (mk (id p) (name p) (x p) (y p) (angle p) (moving p)
             (delete bid (buffs p)))
  | None => Raise KeyError
  end.

Definition has_buff (p : t) (bid : Z) : bool :=
  bool_decide (is_Some (buffs p !! bid)).
End Player.

Module Ability.
Record t : Type := mk
  { id : Z; name : string; cast_deadline : R; gc_deadline : R }.
End Ability.

(** ** bot.py: the clock and the registry *)

#[global] Instance Rlt_decision (a b : R) : Decision (a < b)%R := Rlt_dec a b.
#[global] Instance Rle_decision (a b : R) : Decision (a <= b)%R := Rle_dec a b.

Module SimState.
Record t : Type := mk
  { players : gmap Z Player.t;
    enemies : gmap Z Enemy.t;
    abilities : gmap Z Ability.t;
    pause_time : option R;
    server_offset : R;
    pause_offset : R }.

(** [SimState()]. *)
Definition init : t := mk ∅ ∅ ∅ None 0%R 0%R.

Definition reset (s : t) : t :=
  mk (Player.reset <$> players s) ∅ (abilities s)
     (pause_time s) (server_offset s) (pause_offset s).

(** [time()], with [now] the value of [time.time()]. *)
Definition time (s : t) (now : R) : R :=
  match pause_time s with
  | Some t0 => t0
  | None => (now - pause_offset s - server_offset s)%R
  end.

Definition pause (s : t) (now : R) : t :=
  mk (players s) (enemies s) (abilities s)
     (Some (time s now)) (server_offset s) (pause_offset s).

Definition unpause (s : t) (offset : R) : t :=
  mk (players s) (enemies s) (abilities s)
     None (server_offset s) offset.

Definition add_player (s : t) (pid : Z) (nm : string) : t :=
  mk (<[pid := Player.new pid nm]> (players s)) (enemies s) (abilities s)
     (pause_time s) (server_offset s) (pause_offset s).

Definition update_player (s : t) (pid : Z) (x y angle : num) (moving : bool) : t :=
  match players s !! pid with
  | None => s
  | Some p =>
      let p' := Player.mk (Player.id p) (Player.name p)
                  (Int (py_int x)) (Int (py_int y)) angle moving
                  (Player.buffs p) in
      mk (<[pid := p']> (players s)) (enemies s) (abilities s)
         (pause_time s) (server_offset s) (pause_offset s)
  end.

Definition remove_player (s : t) (pid : Z) : t :=
  match players s !! pid with
  | None => s
  | Some _ =>
      mk (delete pid (players s)) (enemies s) (abilities s)
         (pause_time s) (server_offset s) (pause_offset s)
  end.

Definition add_enemy (s : t) (eid : Z) (nm : string) (x y : num) (angle : R) : t :=
  mk (players s) (<[eid := Enemy.mk eid nm x y angle]> (enemies s))
     (abilities s) (pause_time s) (server_offset s) (pause_offset s).

Definition remove_enemy (s : t) (eid : Z) : t :=
  match enemies s !! eid with
  | None => s
  | Some _ =>
      mk (players s) (delete eid (enemies s)) (abilities s)
         (pause_time s) (server_offset s) (pause_offset s)
  end.

(** [add_ability] calls [self.time()] twice, once for each deadline: [now]
    is the wall clock at the first call, [later] at the second. *)
Definition add_ability (s : t) (aid : Z) (nm : string) (duration : R)
    (now later : R) : t :=
  let a := Ability.mk aid nm (time s now + duration)%R
                      (time s later + duration + 1)%R in
  mk (players s) (enemies s) (<[aid := a]> (abilities s))
     (pause_time s) (server_offset s) (pause_offset s).

(** The first loop of [gc_abilities]: the ids of the abilities whose
    [gc_deadline] the clock has passed. *)
Definition to_remove (s : t) (now : R) : gset Z :=
  list_to_set
    (Ability.id <$>
       filter (fun a => (Ability.gc_deadline a < time s now)%R)
              (snd <$> map_to_list (abilities s))).

(** [del self.abilities[aid]]. *)
Definition del_ability (aid : Z) (m : gmap Z Ability.t) : result (gmap Z Ability.t) :=
  match m !! aid with
  | Some _ => Ok (delete aid m)
  | None => Raise KeyError
  end.

Definition gc_abilities (s : t) (now : R) : result t :=
  m ← set_fold (fun aid acc => acc ≫= del_ability aid)
               (Ok (abilities s)) (to_remove s now);
  Ok (mk (players s) (enemies s) m
         (pause_time s) (server_offset s) (pause_offset s)).
End SimState.

(** ** ai.py *)

(** [math.atan2(y, x)]. *)
Definition atan2 (y x : R) : R :=
  if decide (0 < x)%R then atan (y / x)
  else if decide (x < 0)%R then
    (if decide (0 <= y)%R then atan (y / x) + PI else atan (y / x) - PI)%R
  else if decide (0 < y)%R then (PI / 2)%R
  else if decide (y < 0)%R then (- PI / 2)%R
  else 0%R.

Module Ai.
Definition MOVE_SPEED : R := 12500.

(** [norm] in exact arithmetic: [vx / dist] raises [ZeroDivisionError] when
    [dist] is zero.  What the same code does on binary64 floats, where a
    square can underflow to zero or overflow, is [FloatAi.norm] below. *)
Definition norm (vx vy : R) : result (R * R) :=
  let dist := sqrt (vx ^ 2 + vy ^ 2) in
  if Req_dec_T dist 0 then Raise ZeroDivisionError
  else Ok (vx / dist, vy / dist)%R.

(** One call [self.state.update_player(pid, x, y, angle, moving)]. *)
Record call : Type := mk_call
  { c_pid : Z; c_x : num; c_y : num; c_angle : num; c_moving : bool }.

(** What a run of [go_to] did up to the last clock reading it was given:
    the registry it left, the calls to [update_player] in order, whether the
    coroutine returned (otherwise it is suspended in [next_tick]), and the
    readings it did not consume. *)
Record run : Type := mk_run
  { final : SimState.t;
    calls : list call;
    returned : bool;
    unread : list R }.

(** [ax == bx and ay == by]. *)
Definition arrived (ax ay bx by_ : num) : bool :=
  num_eqb ax bx && num_eqb ay by_.

(** The body of the loop after the two clock readings: the new position and
    the moving flag. *)
Definition advance (bx by_ : num) (dx dy : R) (ax ay : num) (t1 t2 : R)
  : num * num * bool :=
  let dt := (t2 - t1)%R in
  let dist := (MOVE_SPEED * dt)%R in
  let rx := (val bx - val ax)%R in
  let ry := (val by_ - val ay)%R in
  let rdist := sqrt (rx ^ 2 + ry ^ 2) in
  if decide (dist <= rdist)%R
  then (Flt (val ax + dx * dist), Flt (val ay + dy * dist), true)
  else (bx, by_, false).

(** The [while] loop of [go_to]; every [await self.next_tick()] consumes one
    wall clock reading of [ticks]. *)
Fixpoint go_to_loop (s : SimState.t) (pid : Z) (bx by_ : num)
    (dx dy angle : R) (ax ay : num) (t2 : R) (ticks : list R) : run :=
  if arrived ax ay bx by_ then mk_run s [] true ticks
  else
    match ticks with
    | [] => mk_run s [] false []
    | now :: ticks' =>
        let t1 := t2 in
        let t2 := SimState.time s now in
        let '(ax', ay', moving) := advance bx by_ dx dy ax ay t1 t2 in
        let s' := SimState.update_player s pid ax' ay' (Flt angle) moving in
        let r := go_to_loop s' pid bx by_ dx dy angle ax' ay' t2 ticks' in
        mk_run (final r)
               (mk_call pid ax' ay' (Flt angle) moving :: calls r)
               (returned r) (unread r)
    end.

(** [go_to(bx, by)] for the actor [pid]; [now0] is the wall clock at the
    reading taken before the loop.  [self.me] raises [KeyError] when the
    actor is not registered. *)
Definition go_to (s : SimState.t) (pid : Z) (bx by_ : num)
    (now0 : R) (ticks : list R) : result run :=
  match SimState.players s !! pid with
  | None => Raise KeyError
  | Some me =>
      let ax := Player.x me in
      let ay := Player.y me in
      if arrived ax ay bx by_ then Ok (mk_run s [] true ticks)
      else
        d ← norm (val bx - val ax) (val by_ - val ay);
        let angle := atan2 (snd d) (fst d) in
        let t2 := SimState.time s now0 in
        Ok (go_to_loop s pid bx by_ (fst d) (snd d) angle ax ay t2 ticks)
  end.

Section Shuffle.
(** [random.Random(seed).shuffle]: the standard library's generator, a
    function of the seed and of the list it is given. *)
Variable rng_shuffle : Z -> list Z -> list Z.

(** [sum((p + 3) * (i + 7) for i, p in enumerate(pids))]. *)
Definition seed_of (pids : list Z) : Z :=
  foldl Z.add 0%Z (imap (fun i p => ((p + 3) * (Z.of_nat i + 7))%Z) pids).

(** The contents of [pids] after [consistent_shuffle(pids)]. *)
Definition consistent_shuffle (pids : list Z) : list Z :=
  let pids := merge_sort Z.le pids in
  let seed := seed_of pids in
  rng_shuffle seed pids.
End Shuffle.
End Ai.

(** ** ai.py on binary64 floats

    [norm] and the entry of [go_to] as Python computes them on IEEE 754
    binary64 numbers, for what exact arithmetic does not show: the square of
    a small number is zero, the square of a large one raises. *)

Module FloatAi.
(** [x ** 2] for a float [x], taken as the rounded product: Python raises
    [OverflowError] when the power of a finite number is not finite. *)
Definition square (x : float) : result float :=
  let y := (x * x)%float in
  if PrimFloat.is_infinity y && negb (PrimFloat.is_infinity x)
  then Raise OverflowError
  else Ok y.

(** [norm(vx, vy)]: float division raises [ZeroDivisionError] when the
    divisor is zero. *)
Definition norm (vx vy : float) : result (float * float) :=
  x2 ← square vx;
  y2 ← square vy;
  let dist := PrimFloat.sqrt (x2 + y2)%float in
  if PrimFloat.eqb dist 0%float then Raise ZeroDivisionError
  else Ok (vx / dist, vy / dist)%float.

End FloatAi.

(** ** Histories of the registry

    The calls the event loop and the behaviour routine make on one
    [SimState], as data, so that a property of every state the registry can
    reach is a statement about every list of calls. *)

Inductive op : Type :=
  | AddPlayer (pid : Z) (nm : string)
  | UpdatePlayer (pid : Z) (x y angle : num) (moving : bool)
  | RemovePlayer (pid : Z)
  | AddEnemy (eid : Z) (nm : string) (x y : num) (angle : R)
  | RemoveEnemy (eid : Z)
  | AddAbility (aid : Z) (nm : string) (duration : R) (later : R)
  | GcAbilities
  | Reset
  | Pause
  | Unpause (offset : R)
  | AddBuff (pid bid : Z) (deadline : R)
  | RemoveBuff (pid bid : Z).

(** [self.state.players[pid].m(...)] for a method [m] of [Player]. *)
Definition on_player (s : SimState.t) (pid : Z)
    (m : Player.t -> result Player.t) : result SimState.t :=
  match SimState.players s !! pid with
  | None => Raise KeyError
  | Some p =>
      p' ← m p;
      Ok (SimState.mk (<[pid := p']> (SimState.players s))
            (SimState.enemies s) (SimState.abilities s)
            (SimState.pause_time s) (SimState.server_offset s)
            (SimState.pause_offset s))
  end.

(** One call, made when the wall clock reads [now]. *)
Definition apply (s : SimState.t) (now : R) (o : op) : result SimState.t :=
  match o with
  | AddPlayer pid nm => Ok (SimState.add_player s pid nm)
  | UpdatePlayer pid x y angle moving =>
      Ok (SimState.update_player s pid x y angle moving)
  | RemovePlayer pid => Ok (SimState.remove_player s pid)
  | AddEnemy eid nm x y angle => Ok (SimState.add_enemy s eid nm x y angle)
  | RemoveEnemy eid => Ok (SimState.remove_enemy s eid)
  | AddAbility aid nm duration later =>
      Ok (SimState.add_ability s aid nm duration now later)
  | GcAbilities => SimState.gc_abilities s now
  | Reset => Ok (SimState.reset s)
  | Pause => Ok (SimState.pause s now)
  | Unpause offset => Ok (SimState.unpause s offset)
  | AddBuff pid bid dl =>
      on_player s pid (fun p => Ok (Player.add_buff p bid dl))
  | RemoveBuff pid bid =>
      on_player s pid (fun p => Player.remove_buff p bid)
  end.

(** A history: each call with the wall clock reading at which it is made. *)
Fixpoint apply_all (s : SimState.t) (h : list (R * op)) : result SimState.t :=
  match h with
  | [] => Ok s
  | (now, o) :: h' => s' ← apply s now o; apply_all s' h'
  end.

(** Every ability is stored under its own id. *)
Definition abilities_keyed (s : SimState.t) : Prop :=
  map_Forall (fun k a => Ability.id a = k) (SimState.abilities s).

(** Every registered player has integer coordinates. *)
Definition positions_integral (s : SimState.t) : Prop :=
  map_Forall (fun _ p => is_int (Player.x p) /\ is_int (Player.y p))
             (SimState.players s).

(** The straight-line distance from [(x, y)] to [(bx, by)]. *)
Definition remaining (bx by_ x y : num) : R :=
  sqrt ((val bx - val x) ^ 2 + (val by_ - val y) ^ 2).

Definition call_remaining (bx by_ : num) (c : Ai.call) : R :=
  remaining bx by_ (Ai.c_x c) (Ai.c_y c).

(** The readings of [time()] behind a list of wall clock readings. *)
Definition readings (s : SimState.t) (ticks : list R) : list R :=
  SimState.time s <$> ticks.

(** [(x, y)] is at distance [rho] from [(bx, by)], behind it along the
    direction [(dx, dy)]. *)
Definition on_ray (bx by_ : num) (dx dy rho : R) (x y : num) : Prop :=
  val x = (val bx - rho * dx)%R /\ val y = (val by_ - rho * dy)%R.

(** The calls [cs], made at the readings [ts] of [time()] after a reading [t]
    taken at distance [rho] from the target, keep the pace: a call with
    [moving] true is closer to the target by [MOVE_SPEED] times the time
    elapsed since the previous reading, a call with [moving] false is at the
    target itself. *)
Fixpoint paced (bx by_ : num) (rho t : R) (cs : list Ai.call) (ts : list R) : Prop :=
  match cs, ts with
  | [], _ => True
  | c :: cs', t' :: ts' =>
      (if Ai.c_moving c
       then call_remaining bx by_ c = (rho - Ai.MOVE_SPEED * (t' - t))%R
       else Ai.c_x c = bx /\ Ai.c_y c = by_)
      /\ paced bx by_ (call_remaining bx by_ c) t' cs' ts'
  | _ :: _, [] => False
  end.

(** ** Invariants of the registry *)

(** No ability is forgotten sooner than one time unit after its cast
    ends. *)
Definition deadlines_spaced (s : SimState.t) : Prop :=
  map_Forall
    (fun _ a => (Ability.cast_deadline a + 1 <= Ability.gc_deadline a)%R)
    (SimState.abilities s).

(** In a call of [add_ability] the wall clock has not gone back between the
    first reading and the second. *)
Definition reads_forward (now : R) (o : op) : Prop :=
  match o with
  | AddAbility _ _ _ later => (now <= later)%R
  | _ => True
  end.

(** The same of every call of a history. *)
Definition history_forward (h : list (R * op)) : Prop :=
  Forall (fun c => reads_forward (fst c) (snd c)) h.


(** The wall clock readings of a history never go back, from [now] on. *)
Fixpoint wall_ordered (now : R) (h : list (R * op)) : Prop :=
  match h with
  | [] => True
  | (now', _) :: h' => (now <= now')%R /\ wall_ordered now' h'
  end.

(** ** ai.py: rounding on the circle, and the waits on the clock *)

(** [round(x)] for a float [x]: the nearest integer, the even one of the two
    when [x] is half way. *)
Definition py_round (r : R) : Z :=
  let f := Int_part r in
  let d := (r - IZR f)%R in
  if decide (d < 1 / 2)%R then f
  else if decide (1 / 2 < d)%R then (f + 1)%Z
  else if Z.even f then f else (f + 1)%Z.

Definition xcircle (r a : R) : Z := py_round (r * cos a).
Definition ycircle (r a : R) : Z := py_round (r * sin a).

Module Strategy.

(** The test of the loop of [is_ability_casting]: some ability has this name
    and a cast deadline after the reading of [time()]. *)
Definition casting (s : SimState.t) (nm : string) (now : R) : bool :=
  bool_decide
    (map_Exists
       (fun _ a => Ability.name a = nm
                   /\ (SimState.time s now < Ability.cast_deadline a)%R)
       (SimState.abilities s)).

(** [is_ability_casting(name)]: the registry after the collection, and the
    answer. *)
Definition is_ability_casting (s : SimState.t) (nm : string) (now : R)
  : result (SimState.t * bool) :=
  s' ← SimState.gc_abilities s now;
  Ok (s', casting s' nm now).

(** A tick: the registry as the other tasks left it when the coroutine
    resumes from [next_tick], and the wall clock then. *)
Definition tick : Type := SimState.t * R.


(** What a wait did with the ticks it was given: whether it returned
    (otherwise it is suspended in [next_tick]), and the ticks it did not
    consume. *)
Record wait : Type := mk_wait { returned : bool; unread : list tick }.



(** The test of the loop of [until_ability_triggers]: some ability has this
    name and a cast deadline before the reading of [time()]. *)
Definition triggered (s : SimState.t) (nm : string) (now : R) : bool :=
  bool_decide
    (map_Exists
       (fun _ a => Ability.name a = nm
                   /\ (Ability.cast_deadline a < SimState.time s now)%R)
       (SimState.abilities s)).

Fixpoint until_ability_triggers_loop (nm : string) (cur : tick)
    (ticks : list tick) : wait :=
  if triggered (fst cur) nm (snd cur) then mk_wait true ticks
  else match ticks with
       | [] => mk_wait false []
       | tk :: ticks' => until_ability_triggers_loop nm tk ticks'
       end.

(** [until_ability_triggers(name)]: the registry after the collection made
    on entry, and the wait. *)
Definition until_ability_triggers (s : SimState.t) (nm : string) (now0 : R)
    (ticks : list tick) : result (SimState.t * wait) :=
  s' ← SimState.gc_abilities s now0;
  Ok (s', until_ability_triggers_loop nm (s', now0) ticks).

End Strategy.

(** ** Numbers from the wire

    A number of a JSON payload is an [int] of any size or a [float]; the
    fields of a [_rawstr] payload are [int]s of any size.  Where Python
    turns such an [int] into a float it raises [OverflowError] when the
    [int] is too large. *)

(** The least magnitude that does not round to a binary64 number: half way
    between the largest one, [2^1024 - 2^971], and [2^1024]. *)
Definition float_bound : Z := (2 ^ 1024 - 2 ^ 970)%Z.

(** The conversion [math.atan2] makes of an argument. *)
Definition py_float (n : num) : result R :=
  match n with
  | Int z =>
      if decide (Z.abs z < float_bound)%Z then Ok (IZR z)
      else Raise OverflowError
  | Flt r => Ok r
  end.

(** [math.atan2(y, x)]. *)
Definition py_atan2 (y x : num) : result R :=
  fy ← py_float y;
  fx ← py_float x;
  Ok (atan2 fy fx).

(** [n / 1000]: the true division of an [int] raises [OverflowError] when
    the quotient is too large for a float. *)
Definition div_1000 (n : num) : result R :=
  match n with
  | Int z =>
      if decide (Z.abs z < 1000 * float_bound)%Z then Ok (IZR z / 1000)%R
      else Raise OverflowError
  | Flt r => Ok (r / 1000)%R
  end.

(** ** bot.py: the event loop of the client

    An event is taken as the loop reads it: its type, and the fields of the
    payload the branch for that type reads, with the types the branch uses
    them at.  A [_rawstr] payload is taken split into its fields, the
    numbers read. *)

Module XivSimClient.
Inductive strategy_type : Type := WyrmholeStrategy.

(** [ai.find_strategy]. *)
Definition find_strategy (tts : string) : option strategy_type :=
  if decide (tts = "Starting Wyrmhole") then Some WyrmholeStrategy else None.

Record t : Type := mk
  { current_map : option string;
    pid : option Z;
    state : SimState.t;
    strategy : option strategy_type }.

(** [XivSimClient(server, port, password)]. *)
Definition init : t := mk None None SimState.init None.

Inductive event : Type :=
  | PassOK (m : string)
  | SetId (id : Z) (players : list (Z * option string))
  | NewPlayer (id : Z) (nm : string)
  | MapChange (m : string)
  | PlayerDisconnected (id : Z)
  | BuffGiven (p i : Z) (d : num)
  | BuffExpired (p i : Z)
  | NewEnemy (i : Z) (nm : string) (x z : num) (k j : num)
  | REnemy (id : Z)
  | NewEnemyAbility (id : Z) (nm : string) (castTime : num)
  | ResetGame
  | GamePaused
  | GameUnpaused (payload : num)
  | Tts (m : string)
  | RawPlayerUpdate (p x y fx fy : Z) (m : bool)
  | RawOther
  | OtherEvent.

(** What the loop sends and starts. *)
Inductive sent : Type :=
  | SetPlayerData (id : Z)
  | MapLoaded (p : option Z)
  | StartPlayerUpdate
  | RunStrategy (k : strategy_type) (p : option Z)
  | StopStrategy.

Definition with_state (c : t) (s : SimState.t) : t :=
  mk (current_map c) (pid c) s (strategy c).

(** The [for p in evt.payload['players']] loop of the [setId] branch. *)
Definition add_named (s : SimState.t) (players : list (Z * option string))
  : SimState.t :=
  foldl (fun acc p =>
           match snd p with
           | None => acc
           | Some nm => SimState.add_player acc (fst p) nm
           end) s players.

(** One turn of the [async for] loop of [mainloop], for the event [e] read
    when the wall clock reads [now]; [later] is the wall clock at the second
    reading of a turn that reads it twice.  The result is the client after
    the turn, what was sent, and whether the loop goes on ([false] after
    [break]). *)
Definition handle (c : t) (now later : R) (e : event)
  : result (t * list sent * bool) :=
  let s := state c in
  match e with
  | PassOK m => Ok (mk (Some m) (pid c) s (strategy c), [], true)
  | SetId id players =>
      let s1 := SimState.add_player s id "hi" in
      let s2 := add_named s1 players in
      Ok (mk (current_map c) (Some id) s2 (strategy c),
          [SetPlayerData id; MapLoaded (Some id); StartPlayerUpdate], true)
  | NewPlayer id nm => Ok (with_state c (SimState.add_player s id nm), [], true)
  | MapChange m =>
      Ok (mk (Some m) (pid c) s (strategy c), [MapLoaded (pid c)], true)
  | PlayerDisconnected id =>
      Ok (with_state c (SimState.remove_player s id), [],
          negb (bool_decide (Some id = pid c)))
  | BuffGiven p i d =>
      match SimState.players s !! p with
      | None => Ok (c, [], true)
      | Some _ =>
          secs ← div_1000 d;
          s' ← on_player s p
                 (fun pl => Ok (Player.add_buff pl i
                                  (SimState.time s now + secs)%R));
          Ok (with_state c s', [], true)
      end
  | BuffExpired p i =>
      s' ← on_player s p (fun pl => Player.remove_buff pl i);
      Ok (with_state c s', [], true)
  | NewEnemy i nm x z k j =>
      angle ← py_atan2 k j;
      Ok (with_state c (SimState.add_enemy s i nm x z angle), [], true)
  | REnemy id => Ok (with_state c (SimState.remove_enemy s id), [], true)
  | NewEnemyAbility id nm castTime =>
      secs ← div_1000 castTime;
      Ok (with_state c (SimState.add_ability s id nm secs now later),
          [], true)
  | ResetGame =>
      Ok (mk (current_map c) (pid c) (SimState.reset s) None,
          match strategy c with Some _ => [StopStrategy] | None => [] end,
          true)
  | GamePaused => Ok (with_state c (SimState.pause s now), [], true)
  | GameUnpaused payload =>
      offset ← div_1000 payload;
      Ok (with_state c (SimState.unpause s offset), [], true)
  | Tts m =>
      match find_strategy m with
      | Some k =>
          Ok (mk (current_map c) (pid c) s (Some k),
              [RunStrategy k (pid c)], true)
      | None => Ok (c, [], true)
      end
  | RawPlayerUpdate p x y fx fy m =>
      if bool_decide (Some p = pid c) then Ok (c, [], true)
      else
        angle ← py_atan2 (Int fy) (Int fx);
        Ok (with_state c
              (SimState.update_player s p (Int x) (Int y) (Flt angle) m),
            [], true)
  | RawOther => Ok (c, [], true)
  | OtherEvent => Ok (c, [], true)
  end.

(** The loop of [mainloop] on the events of the stream, each with the two
    wall clock readings of its turn, and what follows the loop. *)
Fixpoint mainloop (c : t) (evts : list (R * R * event))
  : result (t * list sent) :=
  match evts with
  | [] =>
      Ok (c, match strategy c with Some _ => [StopStrategy] | None => [] end)
  | (now, later, e) :: evts' =>
      r ← handle c now later e;
      let c' := fst (fst r) in
      let out := snd (fst r) in
      if snd r : bool
      then r' ← mainloop c' evts'; Ok (fst r', out ++ snd r')
      else Ok (c', out ++ match strategy c' with
                          | Some _ => [StopStrategy]
                          | None => []
                          end)
  end.

(** The fields [continuous_player_update] sends, before they are joined into
    a string; [None] when the task ends because the client is not
    registered. *)
Definition player_update_fields (c : t) : option (list Z) :=
  match pid c with
  | None => None
  | Some p =>
      match SimState.players (state c) !! p with
      | None => None
      | Some me =>
          Some [0; p; py_int (Player.x me); py_int (Player.y me);
                trunc (10000 * cos (val (Player.angle me)));
                trunc (10000 * sin (val (Player.angle me)));
                (if Player.moving me then 1 else 0); 0; 0]%Z
      end
  end.
End XivSimClient.

(** An [int] of magnitude [bound] or more. *)
Definition too_large (bound : Z) (n : num) : Prop :=
  match n with
  | Int z => (bound <= Z.abs z)%Z
  | Flt _ => False
  end.

(** The event carries an [int] too large for the float the branch that
    handles it makes of it. *)
Definition overflows (c : XivSimClient.t) (e : XivSimClient.event) : Prop :=
  match e with
  | XivSimClient.BuffGiven p _ d =>
      is_Some (SimState.players (XivSimClient.state c) !! p)
      /\ too_large (1000 * float_bound) d
  | XivSimClient.NewEnemy _ _ _ _ k j =>
      too_large float_bound k \/ too_large float_bound j
  | XivSimClient.NewEnemyAbility _ _ castTime =>
      too_large (1000 * float_bound) castTime
  | XivSimClient.GameUnpaused payload =>
      too_large (1000 * float_bound) payload
  | XivSimClient.RawPlayerUpdate p _ _ fx fy _ =>
      Some p <> XivSimClient.pid c
      /\ (too_large float_bound (Int fy) \/ too_large float_bound (Int fx))
  | _ => False
  end.


(** ** bot.py: a position update on the wire *)

(** [sep.join(l)] for a one character [sep]. *)
Fixpoint join (sep : ascii) (l : list string) : string :=
  match l with
  | [] => EmptyString
  | [w] => w
  | w :: l' => (w ++ String sep (join sep l'))%string
  end.

(** [s.split(sep)] for a one character [sep]. *)
Fixpoint split (sep : ascii) (s : string) : list string :=
  match s with
  | EmptyString => [EmptyString]
  | String a s' =>
      if Ascii.eqb a sep then EmptyString :: split sep s'
      else match split sep s' with
           | [] => [String a EmptyString]
           | w :: ws => String a w :: ws
           end
  end.

(** [sep in s]. *)
Fixpoint contains (sep : ascii) (s : string) : bool :=
  match s with
  | EmptyString => false
  | String a s' => Ascii.eqb a sep || contains sep s'
  end.

(** The numeral Python's [str] writes for an integer, and the integer its
    [int] reads from such a numeral. *)
Definition decimal_str (z : Z) : string :=
  NilEmpty.string_of_int (Z.to_int z).
Definition decimal_int (s : string) : option Z :=
  option_map Z.of_int (NilEmpty.int_of_string s).

Section RawStr.
(** [str] on an integer and [int] on a string; [int] gives [None] when it
    raises [ValueError]. *)
Variable py_str : Z -> string.
Variable py_int_of_str : string -> option Z.

(** The payload [continuous_player_update] sends; [None] when the task ends
    because the client is not registered. *)
Definition player_update_payload (c : XivSimClient.t) : option string :=
  (fun fields => join "|" (py_str <$> fields))
    <$> XivSimClient.player_update_fields c.

(** The [_rawstr] branch of the loop up to its call: the event read from the
    payload, [None] when the reading raises [ValueError]. *)
Definition read_rawstr (payload : string) : option XivSimClient.event :=
  match split "|" payload with
  | [] => None
  | f0 :: fields =>
      if decide (f0 = "0")
      then
        match mapM py_int_of_str fields with
        | Some [p; x; y; fx; fy; m; _; _] =>
            Some (XivSimClient.RawPlayerUpdate p x y fx fy
                    (negb (Z.eqb m 0)))
        | _ => None
        end
      else Some XivSimClient.RawOther
  end.
End RawStr.

(** ** geckos.py: the stream of events

    A packet of the read queue is a string, or [None] when the channel has
    closed.  What [stream] finds in a packet that [json.loads] decodes,
    through its reads of the decoded value, is kept as the function
    [decode]; it gives [None] on [JSONDecodeError], the one exception
    [stream] catches. *)

Module GeckosClient.
Section Stream.
(** The values a payload decodes to. *)
Variable json : Type.

(** What the reads of [stream] find in a decoded packet.
    - [Plain]: an object; the first key and its value, which is not an
      object with a key [RELIABLE].
    - [Reliable]: an object whose first value is an object with the keys
      [RELIABLE], [ID] and [MESSAGE]; the first key, and the [ID], a string
      as geckos writes it, and the [MESSAGE].
    - [ReliableNoMessage]: the same without the key [MESSAGE]:
      [payload['MESSAGE']] raises [KeyError], after the [ID] has been
      tested and recorded.
    - [Malformed e]: a read before those raises [e]: [AttributeError] when
      the decoded value is not an object ([packet.keys()]), [IndexError]
      when the object is empty ([list(...)[0]]), [KeyError] when the
      reliable payload has no [ID], [TypeError] when the [ID] cannot be a
      member of a set. *)
Inductive decoded : Type :=
  | Plain (type : string) (payload : json)
  | Reliable (type : string) (id : string) (message : json)
  | ReliableNoMessage (type : string) (id : string)
  | Malformed (e : exn).

Variable decode : string -> option decoded.

(** The payload of an [Event]: a decoded value, or the packet itself for a
    [_rawstr] event. *)
Inductive payload : Type :=
  | Json (v : json)
  | Str (s : string).

Record Event : Type := mk_Event { type : string; event_payload : payload }.

(** [any(c in packet for c in '{}[]')]. *)
Definition likely_json (packet : string) : bool :=
  contains "{" packet || contains "}" packet
  || contains "[" packet || contains "]" packet.

(** How a run of [stream] stands after the packets it was given: suspended
    on the empty queue, returned at the close, or ended by an exception. *)
Inductive outcome : Type :=
  | Suspended
  | Returned
  | Raised (e : exn).

(** What a run of [stream] did with the packets it was given: the events it
    yielded, [reliable_seen] afterwards, and how it stands. *)
Record run : Type := mk_run
  { events : list Event; reliable_seen : gset string; ended : outcome }.

Definition yield (e : Event) (r : run) : run :=
  mk_run (e :: events r) (reliable_seen r) (ended r).

Fixpoint stream (seen : gset string) (packets : list (option string)) : run :=
  match packets with
  | [] => mk_run [] seen Suspended
  | None :: _ => mk_run [] seen Returned
  | Some packet :: packets' =>
      if likely_json packet
      then
        match decode packet with
        | Some (Malformed e) => mk_run [] seen (Raised e)
        | Some (Reliable ty id message) =>
            if decide (id ∈ seen) then stream seen packets'
            else yield (mk_Event ty (Json message))
                       (stream ({[id]} ∪ seen) packets')
        | Some (ReliableNoMessage ty id) =>
            if decide (id ∈ seen) then stream seen packets'
            else mk_run [] ({[id]} ∪ seen) (Raised KeyError)
        | Some (Plain ty pl) =>
            yield (mk_Event ty (Json pl)) (stream seen packets')
        | None =>
            yield (mk_Event "_rawstr" (Str packet)) (stream seen packets')
        end
      else yield (mk_Event "_rawstr" (Str packet)) (stream seen packets')
  end.
End Stream.
Arguments Plain {json} type payload.
Arguments Reliable {json} type id message.
Arguments ReliableNoMessage {json} type id.
Arguments Malformed {json} e.
Arguments Json {json} v.
Arguments Str {json} s.
Arguments mk_Event {json} type event_payload.
Arguments type {json} e.
Arguments event_payload {json} e.
Arguments mk_run {json} events reliable_seen ended.
Arguments events {json} r.
Arguments reliable_seen {json} r.
Arguments ended {json} r.
Arguments yield {json} e r.
Arguments stream {json} decode seen packets.
End GeckosClient.

(** A registry that some history of calls reaches from [SimState()]. *)
Definition reachable (s : SimState.t) : Prop :=
  exists h, apply_all SimState.init h = Ok s.

(* ================================================================== *)
(** * Properties *)

Local Open Scope R_scope.

(** ** The clock *)

(** A call other than [unpause] leaves a paused clock paused at the same
    instant. *)
Lemma apply_keeps_pause (s s' : SimState.t) (now : R) (o : op) (t0 : R) :
  (forall c, o <> Unpause c) ->
  SimState.pause_time s = Some t0 ->
  apply s now o = Ok s' ->
  SimState.pause_time s' = Some t0.
Proof.
  intros Hne Hp Happ. destruct o; simpl in Happ.
  - by simplify_eq.
  - unfold SimState.update_player in Happ.
    destruct (SimState.players s !! pid); by simplify_eq.
  - unfold SimState.remove_player in Happ.
    destruct (SimState.players s !! pid); by simplify_eq.
  - by simplify_eq.
  - unfold SimState.remove_enemy in Happ.
    destruct (SimState.enemies s !! eid); by simplify_eq.
  - by simplify_eq.
  - unfold SimState.gc_abilities in Happ.
    destruct (set_fold _ _ _); simpl in Happ; by simplify_eq.
  - by simplify_eq.
  - simplify_eq; simpl. unfold SimState.time. by rewrite Hp.
  - by destruct (Hne offset).
  - unfold on_player in Happ.
    destruct (SimState.players s !! pid); simpl in Happ; by simplify_eq.
  - unfold on_player in Happ.
    destruct (SimState.players s !! pid) as [p|]; simpl in Happ; [|done].
    destruct (Player.remove_buff p bid); simpl in Happ; by simplify_eq.
Qed.

Lemma apply_all_keeps_pause (h : list (R * op)) (s s' : SimState.t) (t0 : R) :
  Forall (fun c => forall c', snd c <> Unpause c') h ->
  SimState.pause_time s = Some t0 ->
  apply_all s h = Ok s' ->
  SimState.pause_time s' = Some t0.
Proof.
  induction h as [|[now o] h IH] in s |- *; simpl; intros Hh Hp Hall.
  - by simplify_eq.
  - inversion Hh as [|? ? Ho Hh']; subst; simpl in Ho.
    destruct (apply s now o) as [s1|] eqn:E; simpl in Hall; [|done].
    eapply IH; [done| |done]. by eapply apply_keeps_pause.
Qed.

(** C5. [time()] returns the stored pause instant whenever the clock is
    paused, whatever the wall clock reads, and otherwise the wall clock minus
    [pause_offset] minus [server_offset]; after [pause()] the reading is the
    one taken at the pause, and it stays so through every later call on the
    registry up to the next [unpause]. *)
Theorem time_reading (s : SimState.t) (now now' : R) (h : list (R * op)) (s' : SimState.t) :
  Forall (fun c => forall c', snd c <> Unpause c') h ->
  apply_all (SimState.pause s now) h = Ok s' ->
  SimState.time s now =
    match SimState.pause_time s with
    | Some t0 => t0
    | None => now - SimState.pause_offset s - SimState.server_offset s
    end
  /\ SimState.time (SimState.pause s now) now' = SimState.time s now
  /\ SimState.time s' now' = SimState.time s now.
Proof.
  intros Hh Hall. split; [done|]. split; [done|].
  unfold SimState.time at 1.
  by rewrite (apply_all_keeps_pause h (SimState.pause s now) s'
               (SimState.time s now) Hh eq_refl Hall).
Qed.

Lemma time_reading_witness :
  SimState.time
    (SimState.reset
       (SimState.pause
          (SimState.add_player
             (SimState.pause (SimState.unpause SimState.init 2) 10) 1 "hi")
          12))
    99 = 8.
Proof.
  destruct (time_reading (SimState.unpause SimState.init 2) 10 99
              [(11, AddPlayer 1 "hi"); (12, Pause); (13, Reset)]
              (SimState.reset
                 (SimState.pause
                    (SimState.add_player
                       (SimState.pause (SimState.unpause SimState.init 2) 10)
                       1 "hi")
                    12)))
    as (H1 & H2 & H3).
  - repeat constructor; simpl; discriminate.
  - reflexivity.
  - rewrite H3. unfold SimState.time; simpl. lra.
Defined.

(** C10. [pause()] on a clock that is already paused changes nothing:
    [time()] returns the stored pause instant, which is stored again. *)
Theorem pause_when_paused (s : SimState.t) (now t0 : R) :
  SimState.pause_time s = Some t0 ->
  SimState.pause s now = s /\ SimState.time (SimState.pause s now) now = t0.
Proof.
  intros Hp. destruct s as [ps es ab pt so po]; simpl in Hp; subst pt.
  by split.
Qed.

Lemma pause_when_paused_witness :
  SimState.pause (SimState.pause SimState.init 7) 9 = SimState.pause SimState.init 7.
Proof.
  apply (pause_when_paused (SimState.pause SimState.init 7) 9 (7 - 0 - 0)).
  reflexivity.
Defined.

(** C2, as the code has it. [unpause(c)] clears the stored pause instant and
    stores [c] as the pause offset, in place of the previous value; nothing
    else changes, and [time()] then reads the wall clock minus [c] minus
    [server_offset].  So the reading taken at the wall clock instant [now] of
    the unpause is a given instant [t0] (the one the clock was frozen at)
    exactly when [c] is [now - server_offset - t0]. *)
Theorem unpause_sets_offset (s : SimState.t) (c now t0 : R) :
  SimState.pause_time (SimState.unpause s c) = None
  /\ SimState.pause_offset (SimState.unpause s c) = c
  /\ SimState.server_offset (SimState.unpause s c) = SimState.server_offset s
  /\ SimState.players (SimState.unpause s c) = SimState.players s
  /\ SimState.enemies (SimState.unpause s c) = SimState.enemies s
  /\ SimState.abilities (SimState.unpause s c) = SimState.abilities s
  /\ SimState.time (SimState.unpause s c) now = now - c - SimState.server_offset s
  /\ (SimState.time (SimState.unpause s c) now = t0
      <-> c = now - SimState.server_offset s - t0).
Proof.
  repeat split; try done.
  - unfold SimState.time; simpl. lra.
  - unfold SimState.time; simpl. lra.
Qed.

(** C2, as stated, fails: after a first pause closed with offset 5, a second
    [unpause(3)] leaves the offset at 3, not at 5 + 3. *)
Lemma unpause_adds_offset_fails :
  SimState.pause_offset
    (SimState.unpause
       (SimState.pause
          (SimState.unpause (SimState.pause SimState.init 100) 5) 200) 3)
  <> SimState.pause_offset
       (SimState.pause
          (SimState.unpause (SimState.pause SimState.init 100) 5) 200) + 3.
Proof. simpl. lra. Qed.

(** ** The registry *)

(** C8. [reset()] empties the enemy map, puts every player back to the
    default position, angle, moving flag and buffs under the same id, with
    its [id] and [name] kept, registers and unregisters nobody, and leaves the
    abilities as they are. *)
Theorem reset_frame (s : SimState.t) (pid : Z) :
  SimState.enemies (SimState.reset s) = ∅
  /\ SimState.abilities (SimState.reset s) = SimState.abilities s
  /\ dom (SimState.players (SimState.reset s)) = dom (SimState.players s)
  /\ SimState.players (SimState.reset s) !! pid =
       (fun p => Player.mk (Player.id p) (Player.name p)
                   (Int 0) (Int 0) (Int 0) false ∅)
         <$> SimState.players s !! pid.
Proof.
  repeat split.
  - unfold SimState.reset; simpl. apply dom_fmap_L.
  - unfold SimState.reset; simpl. by rewrite lookup_fmap.
Qed.

(** The three guarded mutators do nothing on an id that is not registered. *)
Lemma stale_mutations_noop (s : SimState.t) (k : Z) (x y angle : num) (moving : bool) :
  (SimState.players s !! k = None ->
     SimState.update_player s k x y angle moving = s
     /\ SimState.remove_player s k = s)
  /\ (SimState.enemies s !! k = None -> SimState.remove_enemy s k = s).
Proof.
  unfold SimState.update_player, SimState.remove_player, SimState.remove_enemy.
  split; [intros ->; by split | by intros ->].
Qed.

(** C4, where it fails. Removing a buff the player does not hold raises
    [KeyError], from [Player.remove_buff] and so from the call made through
    the registry's player lookup. *)
Theorem remove_buff_not_held_raises (s : SimState.t) (now : R) (pid bid : Z) (p : Player.t) :
  SimState.players s !! pid = Some p ->
  Player.buffs p !! bid = None ->
  Player.remove_buff p bid = Raise KeyError
  /\ apply s now (RemoveBuff pid bid) = Raise KeyError.
Proof.
  intros Hp Hb. unfold apply, on_player, Player.remove_buff.
  rewrite Hp; simpl. by rewrite Hb.
Qed.

Lemma remove_buff_not_held_raises_witness :
  Player.remove_buff (Player.new 2 "hi") 10 = Raise KeyError
  /\ apply (SimState.add_player SimState.init 2 "hi") 0 (RemoveBuff 2 10)
     = Raise KeyError.
Proof.
  apply (remove_buff_not_held_raises
           (SimState.add_player SimState.init 2 "hi") 0 2 10 (Player.new 2 "hi")).
  - apply lookup_insert_eq.
  - apply lookup_empty.
Defined.

(** *** Garbage collection of abilities *)

(** Deleting a duplicate-free list of present keys one by one never raises,
    and leaves the map without them. *)
Lemma del_abilities_ok (js : list Z) (m : gmap Z Ability.t) :
  NoDup js ->
  (forall j, j ∈ js -> is_Some (m !! j)) ->
  foldr (fun aid acc => acc ≫= SimState.del_ability aid) (Ok m) js
  = Ok (foldr delete m js).
Proof.
  induction js as [|j js IH]; simpl; intros Hnd Hin; [done|].
  apply NoDup_cons in Hnd as [Hj Hnd].
  rewrite IH; [|done|intros; apply Hin; by right].
  unfold mbind, result_bind, SimState.del_ability.
  rewrite lookup_foldr_delete_not_elem_of by done.
  destruct (Hin j) as [a ->]; [by left|done].
Qed.

(** With every ability stored under its own id, the ids collected by the
    first loop are the keys of the expired abilities. *)
Lemma elem_of_to_remove (s : SimState.t) (now : R) (k : Z) :
  abilities_keyed s ->
  k ∈ SimState.to_remove s now <->
  exists a, SimState.abilities s !! k = Some a
            /\ Ability.gc_deadline a < SimState.time s now.
Proof.
  intros Hk. unfold SimState.to_remove.
  rewrite elem_of_list_to_set, list_elem_of_fmap. split.
  - intros (a & -> & Ha). apply list_elem_of_filter in Ha as [Hlt Ha].
    apply list_elem_of_fmap in Ha as ([k' a'] & -> & Hka).
    apply elem_of_map_to_list in Hka. simpl in *.
    exists a'. by rewrite <- (Hk k' a' Hka) in Hka.
  - intros (a & Ha & Hlt). exists a. split; [symmetry; by apply (Hk k a)|].
    apply list_elem_of_filter. split; [done|].
    apply list_elem_of_fmap. exists (k, a). split; [done|].
    by apply elem_of_map_to_list.
Qed.

(** What is left of the abilities after a collection at reading [now]. *)
Lemma gc_abilities_lookup (s : SimState.t) (now : R) :
  abilities_keyed s ->
  exists m,
    SimState.gc_abilities s now
    = Ok (SimState.mk (SimState.players s) (SimState.enemies s) m
            (SimState.pause_time s) (SimState.server_offset s)
            (SimState.pause_offset s))
    /\ forall aid,
         m !! aid =
         match SimState.abilities s !! aid with
         | Some a =>
             if decide (Ability.gc_deadline a < SimState.time s now)
             then None else Some a
         | None => None
         end.
Proof.
  intros Hk.
  exists (foldr delete (SimState.abilities s)
            (elements (SimState.to_remove s now))).
  split.
  - unfold SimState.gc_abilities, set_fold; simpl.
    rewrite del_abilities_ok; [done|apply NoDup_elements|].
    intros j Hj. apply elem_of_elements, elem_of_to_remove in Hj; [|done].
    destruct Hj as (a & -> & _). by eexists.
  - intros aid.
    destruct (decide (aid ∈ SimState.to_remove s now)) as [Hin|Hout].
    + rewrite lookup_foldr_delete by by apply elem_of_elements.
      apply elem_of_to_remove in Hin as (a & -> & Hlt); [|done].
      by rewrite decide_True.
    + rewrite lookup_foldr_delete_not_elem_of by by rewrite elem_of_elements.
      destruct (SimState.abilities s !! aid) as [a|] eqn:Ha; [|done].
      rewrite decide_False; [done|]. intros Hlt. apply Hout.
      apply elem_of_to_remove; eauto.
Qed.

(** C3. On a registry whose abilities are stored under their own ids (as
    [add_ability] stores them), one call of [gc_abilities] returns normally,
    removes the abilities whose [gc_deadline] is strictly below the reading of
    [time()] and keeps every other one, changes nothing else, and a second
    call at the same reading gives the same registry again. *)
Theorem gc_abilities_exact (s : SimState.t) (now : R) :
  abilities_keyed s ->
  exists s',
    SimState.gc_abilities s now = Ok s'
    /\ (forall aid,
          SimState.abilities s' !! aid =
          match SimState.abilities s !! aid with
          | Some a =>
              if decide (Ability.gc_deadline a < SimState.time s now)
              then None else Some a
          | None => None
          end)
    /\ SimState.players s' = SimState.players s
    /\ SimState.enemies s' = SimState.enemies s
    /\ SimState.pause_time s' = SimState.pause_time s
    /\ SimState.pause_offset s' = SimState.pause_offset s
    /\ SimState.server_offset s' = SimState.server_offset s
    /\ SimState.gc_abilities s' now = Ok s'.
Proof.
  intros Hk. destruct (gc_abilities_lookup s now Hk) as (m & Hgc & Hm).
  eexists. split; [exact Hgc|]. simpl. repeat split; try done.
  set (s' := SimState.mk _ _ m _ _ _).
  assert (Hk' : abilities_keyed s').
  { intros k a Hka. simpl in Hka. rewrite Hm in Hka.
    destruct (SimState.abilities s !! k) as [a'|] eqn:Ha'; [|done].
    case_decide; [done|]. simplify_eq. by apply (Hk k a). }
  destruct (gc_abilities_lookup s' now Hk') as (m' & Hgc' & Hm').
  rewrite Hgc'. subst s'; simpl. do 2 f_equal.
  apply map_eq; intros aid. rewrite Hm'. simpl.
  destruct (m !! aid) as [a|] eqn:Ha; [|done].
  rewrite decide_False; [done|].
  rewrite Hm in Ha. destruct (SimState.abilities s !! aid); [|done].
  case_decide; [done|]. by simplify_eq.
Qed.

(** Every call keeps the abilities stored under their own ids, so every
    registry built from [SimState()] has them so. *)
Lemma apply_keeps_keyed (s s' : SimState.t) (now : R) (o : op) :
  abilities_keyed s -> apply s now o = Ok s' -> abilities_keyed s'.
Proof.
  intros Hk Happ. destruct o; simpl in Happ.
  - by simplify_eq.
  - unfold SimState.update_player in Happ.
    destruct (SimState.players s !! pid); by simplify_eq.
  - unfold SimState.remove_player in Happ.
    destruct (SimState.players s !! pid); by simplify_eq.
  - by simplify_eq.
  - unfold SimState.remove_enemy in Happ.
    destruct (SimState.enemies s !! eid); by simplify_eq.
  - simplify_eq. unfold abilities_keyed; simpl.
    by apply map_Forall_insert_2.
  - destruct (gc_abilities_lookup s now Hk) as (m & Hgc & Hm).
    rewrite Hgc in Happ. simplify_eq. intros k a Hka. simpl in Hka.
    rewrite Hm in Hka.
    destruct (SimState.abilities s !! k) as [a'|] eqn:Ha'; [|done].
    case_decide; [done|]. simplify_eq. by apply (Hk k a).
  - by simplify_eq.
  - by simplify_eq.
  - by simplify_eq.
  - unfold on_player in Happ.
    destruct (SimState.players s !! pid); simpl in Happ; by simplify_eq.
  - unfold on_player in Happ.
    destruct (SimState.players s !! pid) as [p|]; simpl in Happ; [|done].
    destruct (Player.remove_buff p bid); simpl in Happ; by simplify_eq.
Qed.

Lemma reachable_keyed (h : list (R * op)) (s : SimState.t) :
  apply_all SimState.init h = Ok s -> abilities_keyed s.
Proof.
  assert (H : forall s0, abilities_keyed s0 ->
                apply_all s0 h = Ok s -> abilities_keyed s).
  { induction h as [|[now o] h IH]; simpl; intros s0 Hk Hall.
    - by simplify_eq.
    - destruct (apply s0 now o) as [s1|] eqn:E; simpl in Hall; [|done].
      eapply IH; [|done]. by eapply apply_keeps_keyed. }
  apply H. apply map_Forall_empty.
Qed.

(** The scenario of the specification: "Gnash" starts at clock time 100 with
    a cast time of 2, so its [gc_deadline] is 103; "Lash" starts at 101.  A
    collection at 103.5 removes "Gnash" and keeps "Lash". *)
Lemma gc_abilities_exact_witness :
  exists s',
    SimState.gc_abilities
      (SimState.add_ability
         (SimState.add_ability SimState.init 7 "Gnash" 2 100 100)
         8 "Lash" 2 101 101)
      (207 / 2) = Ok s'
    /\ SimState.abilities s' !! 7%Z = None
    /\ SimState.abilities s' !! 8%Z
       = Some (Ability.mk 8 "Lash" (101 - 0 - 0 + 2) (101 - 0 - 0 + 2 + 1)).
Proof.
  destruct (gc_abilities_exact
              (SimState.add_ability
                 (SimState.add_ability SimState.init 7 "Gnash" 2 100 100)
                 8 "Lash" 2 101 101)
              (207 / 2))
    as (s' & Hgc & Hl & _).
  - apply (reachable_keyed
             [(100, AddAbility 7 "Gnash" 2 100);
              (101, AddAbility 8 "Lash" 2 101)]).
    reflexivity.
  - exists s'. split; [exact Hgc|]. rewrite !Hl. simpl.
    unfold SimState.time; simpl. split.
    + rewrite lookup_insert_ne by done. rewrite lookup_insert_eq.
      simpl. rewrite decide_True; [done|lra].
    + rewrite lookup_insert_eq. simpl. rewrite decide_False; [done|lra].
Defined.

(** At 102.9 "Gnash" is still there. *)
Lemma gnash_kept_before_deadline :
  exists s',
    SimState.gc_abilities
      (SimState.add_ability SimState.init 7 "Gnash" 2 100 100) (1029 / 10) = Ok s'
    /\ is_Some (SimState.abilities s' !! 7%Z).
Proof.
  destruct (gc_abilities_lookup
              (SimState.add_ability SimState.init 7 "Gnash" 2 100 100) (1029 / 10))
    as (m & Hgc & Hm).
  - apply (reachable_keyed [(100, AddAbility 7 "Gnash" 2 100)]). reflexivity.
  - eexists. split; [exact Hgc|]. simpl. rewrite Hm. simpl.
    rewrite lookup_insert_eq. unfold SimState.time; simpl.
    rewrite decide_False; [by eexists|lra].
Qed.

(** *** Integer positions *)

(** [trunc] is rounding towards zero. *)
Lemma trunc_spec (r : R) :
  (0 <= r -> IZR (trunc r) <= r < IZR (trunc r) + 1)
  /\ (r < 0 -> IZR (trunc r) - 1 < r <= IZR (trunc r)).
Proof.
  unfold trunc. destruct (Rle_dec 0 r) as [Hr|Hr].
  - split; [intros _|lra].
    destruct (base_Int_part r). lra.
  - split; [lra|intros _].
    rewrite opp_IZR. destruct (base_Int_part (- r)). lra.
Qed.

Lemma trunc_unique (r : R) (z : Z) :
  (0 <= r /\ IZR z <= r < IZR z + 1) \/ (r < 0 /\ IZR z - 1 < r <= IZR z) ->
  trunc r = z.
Proof.
  intros H. destruct (trunc_spec r) as [Hp Hn].
  apply eq_IZR. destruct H as [[H0 H]|[H0 H]].
  - specialize (Hp H0).
    destruct (Z.lt_trichotomy (trunc r) z) as [Hlt|[Heq|Hgt]];
      [|by rewrite Heq|].
    + apply IZR_lt in Hlt as Hlt'. assert (trunc r + 1 <= z)%Z as Hle by lia.
      apply IZR_le in Hle. rewrite plus_IZR in Hle. lra.
    + assert (z + 1 <= trunc r)%Z as Hle by lia.
      apply IZR_le in Hle. rewrite plus_IZR in Hle. lra.
  - specialize (Hn H0).
    destruct (Z.lt_trichotomy (trunc r) z) as [Hlt|[Heq|Hgt]];
      [|by rewrite Heq|].
    + assert (trunc r + 1 <= z)%Z as Hle by lia.
      apply IZR_le in Hle. rewrite plus_IZR in Hle. lra.
    + assert (z + 1 <= trunc r)%Z as Hle by lia.
      apply IZR_le in Hle. rewrite plus_IZR in Hle. lra.
Qed.

(** [int(2.5) == 2] and [int(-7.25) == -7]. *)
Example py_int_examples :
  py_int (Flt (5 / 2)) = 2%Z /\ py_int (Flt (- 29 / 4)) = (-7)%Z
  /\ py_int (Int 3) = 3%Z.
Proof.
  repeat split; simpl; apply trunc_unique; [left|right]; simpl; lra.
Qed.

Lemma apply_keeps_integral (s s' : SimState.t) (now : R) (o : op) :
  positions_integral s -> apply s now o = Ok s' -> positions_integral s'.
Proof.
  unfold positions_integral. intros Hi Happ. destruct o; simpl in Happ.
  - simplify_eq; simpl. by apply map_Forall_insert_2.
  - unfold SimState.update_player in Happ.
    destruct (SimState.players s !! pid); simplify_eq; [simpl|done].
    by apply map_Forall_insert_2.
  - unfold SimState.remove_player in Happ.
    destruct (SimState.players s !! pid); simplify_eq; [simpl|done].
    by apply map_Forall_delete.
  - by simplify_eq.
  - unfold SimState.remove_enemy in Happ.
    destruct (SimState.enemies s !! eid); by simplify_eq.
  - by simplify_eq.
  - unfold SimState.gc_abilities in Happ.
    destruct (set_fold _ _ _); simpl in Happ; by simplify_eq.
  - simplify_eq; simpl. by apply map_Forall_fmap, map_Forall_lookup.
  - by simplify_eq.
  - by simplify_eq.
  - unfold on_player in Happ.
    destruct (SimState.players s !! pid) as [p|] eqn:Hp; simpl in Happ;
      simplify_eq; simpl.
    apply map_Forall_insert_2; [|done]. by apply (Hi pid p).
  - unfold on_player in Happ.
    destruct (SimState.players s !! pid) as [p|] eqn:Hp; simpl in Happ; [|done].
    unfold Player.remove_buff in Happ.
    destruct (Player.buffs p !! bid); simpl in Happ; simplify_eq; simpl.
    apply map_Forall_insert_2; [|done]. by apply (Hi pid p).
Qed.

(** C9. [update_player] on a registered id stores [int(x)] and [int(y)],
    whatever numbers [x] and [y] are; and in every registry reached from
    [SimState()] by calls of the registry every player has integer [x] and
    [y]. *)
Theorem positions_always_integral
    (s0 : SimState.t) (pid : Z) (p : Player.t) (x y angle : num) (moving : bool)
    (h : list (R * op)) (s : SimState.t) :
  SimState.players s0 !! pid = Some p ->
  apply_all SimState.init h = Ok s ->
  SimState.players (SimState.update_player s0 pid x y angle moving) !! pid
  = Some (Player.mk (Player.id p) (Player.name p)
            (Int (py_int x)) (Int (py_int y)) angle moving (Player.buffs p))
  /\ positions_integral s.
Proof.
  intros Hp Hall. split.
  - unfold SimState.update_player. rewrite Hp. simpl. apply lookup_insert_eq.
  - assert (H : forall s1, positions_integral s1 ->
                  apply_all s1 h = Ok s -> positions_integral s).
    { clear Hall. induction h as [|[now o] h IH]; simpl; intros s1 Hi Hall.
      - by simplify_eq.
      - destruct (apply s1 now o) as [s2|] eqn:E; simpl in Hall; [|done].
        eapply IH; [|done]. by eapply apply_keeps_integral. }
    apply (H SimState.init); [apply map_Forall_empty|done].
Qed.

Lemma positions_always_integral_witness :
  SimState.players
    (SimState.update_player (SimState.add_player SimState.init 1 "hi") 1
       (Flt (5 / 2)) (Flt (- 29 / 4)) (Flt 0) true) !! 1%Z
  = Some (Player.mk 1 "hi" (Int 2) (Int (-7)) (Flt 0) true ∅)
  /\ positions_integral
       (SimState.update_player (SimState.add_player SimState.init 1 "hi") 1
          (Flt (5 / 2)) (Flt (- 29 / 4)) (Flt 0) true).
Proof.
  destruct py_int_examples as (E1 & E2 & _).
  destruct (positions_always_integral
              (SimState.add_player SimState.init 1 "hi") 1 (Player.new 1 "hi")
              (Flt (5 / 2)) (Flt (- 29 / 4)) (Flt 0) true
              [(0, AddPlayer 1 "hi");
               (1, UpdatePlayer 1 (Flt (5 / 2)) (Flt (- 29 / 4)) (Flt 0) true)]
              (SimState.update_player
                 (SimState.add_player SimState.init 1 "hi") 1
                 (Flt (5 / 2)) (Flt (- 29 / 4)) (Flt 0) true))
    as [Hst Hint].
  - apply lookup_insert_eq.
  - reflexivity.
  - rewrite E1, E2 in Hst. by split.
Defined.

(** ** The consistent shuffle *)

(** [pids.sort()] gives one list for all the orders of the same ids. *)
Lemma sort_of_permutation (l1 l2 : list Z) :
  l1 ≡ₚ l2 -> merge_sort Z.le l1 = merge_sort Z.le l2.
Proof.
  intros Hp. apply (StronglySorted_unique Z.le).
  - apply StronglySorted_merge_sort; apply _.
  - apply StronglySorted_merge_sort; apply _.
  - by rewrite !merge_sort_Permutation.
Qed.

(** The seed of the ids 1, 2, 3: 4 * 7 + 5 * 8 + 6 * 9. *)
Example seed_of_123 : Ai.seed_of [1; 2; 3]%Z = 122%Z.
Proof. reflexivity. Qed.

Section ShuffleProperties.
Variable rng_shuffle : Z -> list Z -> list Z.

(** C7. Two lists that are permutations of the same ids are left in the same
    order by [consistent_shuffle], whatever the generator does with a seed
    and a list: the list is sorted before the seed is computed and before it
    is shuffled, so what is left is the generator's shuffle of the sorted
    ids under the seed of the sorted ids; and with a generator whose
    [shuffle] rearranges the list it is given, each list is left as a
    rearrangement of its own ids. *)
Theorem consistent_shuffle_order_independent (l1 l2 : list Z) :
  l1 ≡ₚ l2 ->
  Ai.consistent_shuffle rng_shuffle l1 = Ai.consistent_shuffle rng_shuffle l2
  /\ (exists sorted,
        Sorted Z.le sorted
        /\ sorted ≡ₚ l1
        /\ sorted ≡ₚ l2
        /\ Ai.consistent_shuffle rng_shuffle l1
           = rng_shuffle (Ai.seed_of sorted) sorted
        /\ Ai.consistent_shuffle rng_shuffle l2
           = rng_shuffle (Ai.seed_of sorted) sorted)
  /\ ((forall seed l, rng_shuffle seed l ≡ₚ l) ->
      Ai.consistent_shuffle rng_shuffle l1 ≡ₚ l1
      /\ Ai.consistent_shuffle rng_shuffle l2 ≡ₚ l2
      /\ length (Ai.consistent_shuffle rng_shuffle l1) = length l1).
Proof.
  intros Hp. unfold Ai.consistent_shuffle. cbv zeta.
  rewrite <- (sort_of_permutation l1 l2 Hp).
  split; [done|]. split.
  - exists (merge_sort Z.le l1).
    split; [apply Sorted_merge_sort; apply _|].
    split; [apply merge_sort_Permutation|].
    split; [by rewrite merge_sort_Permutation|done].
  - intros Hrng.
    assert (H1 : rng_shuffle (Ai.seed_of (merge_sort Z.le l1))
                   (merge_sort Z.le l1) ≡ₚ l1).
    { rewrite Hrng. apply merge_sort_Permutation. }
    split; [exact H1|]. split; [by rewrite H1|by rewrite H1].
Qed.
End ShuffleProperties.

Lemma consistent_shuffle_order_independent_witness :
  Ai.consistent_shuffle (fun seed l => rotate (Z.to_nat seed) l) [3; 1; 2]%Z
  = Ai.consistent_shuffle (fun seed l => rotate (Z.to_nat seed) l) [2; 3; 1]%Z
  /\ (exists sorted,
        Sorted Z.le sorted
        /\ sorted ≡ₚ [3; 1; 2]%Z
        /\ sorted ≡ₚ [2; 3; 1]%Z
        /\ Ai.consistent_shuffle (fun seed l => rotate (Z.to_nat seed) l)
             [3; 1; 2]%Z
           = rotate (Z.to_nat (Ai.seed_of sorted)) sorted
        /\ Ai.consistent_shuffle (fun seed l => rotate (Z.to_nat seed) l)
             [2; 3; 1]%Z
           = rotate (Z.to_nat (Ai.seed_of sorted)) sorted)
  /\ ((forall (seed : Z) (l : list Z), rotate (Z.to_nat seed) l ≡ₚ l) ->
      Ai.consistent_shuffle (fun seed l => rotate (Z.to_nat seed) l)
        [3; 1; 2]%Z ≡ₚ [3; 1; 2]%Z
      /\ Ai.consistent_shuffle (fun seed l => rotate (Z.to_nat seed) l)
           [2; 3; 1]%Z ≡ₚ [2; 3; 1]%Z
      /\ length (Ai.consistent_shuffle
                   (fun seed l => rotate (Z.to_nat seed) l) [3; 1; 2]%Z)
         = length [3; 1; 2]%Z).
Proof.
  apply (consistent_shuffle_order_independent
           (fun seed l => rotate (Z.to_nat seed) l) [3; 1; 2]%Z [2; 3; 1]%Z).
  symmetry. apply (Permutation_cons_append [3; 1]%Z 2%Z).
Defined.

(** With that generator both orders end as [3; 1; 2]: the sorted list
    rotated by 122 places. *)
Example consistent_shuffle_run :
  Ai.consistent_shuffle (fun seed l => rotate (Z.to_nat seed) l) [2; 3; 1]%Z
  = [3; 1; 2]%Z.
Proof. vm_compute. reflexivity. Qed.

(** ** The movement interpolator *)

Lemma num_eqb_true (n m : num) : num_eqb n m = true <-> val n = val m.
Proof. unfold num_eqb. destruct (Req_dec_T (val n) (val m)); split; done. Qed.

Lemma arrived_true (ax ay bx by_ : num) :
  Ai.arrived ax ay bx by_ = true <-> val ax = val bx /\ val ay = val by_.
Proof.
  unfold Ai.arrived. rewrite andb_true_iff, !num_eqb_true. done.
Qed.

Lemma arrived_false (ax ay bx by_ : num) :
  Ai.arrived ax ay bx by_ = false <-> val ax <> val bx \/ val ay <> val by_.
Proof.
  rewrite <- not_true_iff_false, arrived_true.
  destruct (Req_dec_T (val ax) (val bx)), (Req_dec_T (val ay) (val by_));
    intuition.
Qed.

(** The length of a vector is zero only for the zero vector. *)
Lemma length_pos (vx vy : R) :
  vx <> 0 \/ vy <> 0 -> 0 < sqrt (vx ^ 2 + vy ^ 2).
Proof.
  intros H. apply sqrt_lt_R0.
  assert (0 <= vx ^ 2) by apply pow2_ge_0.
  assert (0 <= vy ^ 2) by apply pow2_ge_0.
  destruct H as [H|H].
  - pose proof (pow_nonzero vx 2 H). lra.
  - pose proof (pow_nonzero vy 2 H). lra.
Qed.

(** [norm] of a vector that is not zero returns the unit vector along it. *)
Lemma norm_unit (vx vy : R) :
  vx <> 0 \/ vy <> 0 ->
  exists dx dy,
    Ai.norm vx vy = Ok (dx, dy)
    /\ dx ^ 2 + dy ^ 2 = 1
    /\ vx = sqrt (vx ^ 2 + vy ^ 2) * dx
    /\ vy = sqrt (vx ^ 2 + vy ^ 2) * dy.
Proof.
  intros H. pose proof (length_pos vx vy H) as Hl.
  unfold Ai.norm. set (l := sqrt (vx ^ 2 + vy ^ 2)) in *.
  destruct (Req_dec_T l 0) as [->|Hne]; [lra|].
  exists (vx / l), (vy / l). split; [done|].
  assert (Hsq : l * l = vx ^ 2 + vy ^ 2).
  { apply sqrt_sqrt. pose proof (pow2_ge_0 vx). pose proof (pow2_ge_0 vy). lra. }
  repeat split.
  - replace ((vx / l) ^ 2 + (vy / l) ^ 2) with ((vx ^ 2 + vy ^ 2) / (l * l))
      by (field; done).
    rewrite <- Hsq. field. done.
  - field. done.
  - field. done.
Qed.

(** [update_player] does not touch the clock. *)
Lemma time_update_player (s : SimState.t) (pid : Z) (x y a : num) (m : bool) (now : R) :
  SimState.time (SimState.update_player s pid x y a m) now = SimState.time s now.
Proof.
  unfold SimState.update_player. by destruct (SimState.players s !! pid).
Qed.

Lemma readings_update_player (s : SimState.t) (pid : Z) (x y a : num) (m : bool)
    (ticks : list R) :
  readings (SimState.update_player s pid x y a m) ticks = readings s ticks.
Proof.
  unfold readings. apply list_fmap_ext. intros _ now _.
  apply time_update_player.
Qed.

#[local] Arguments Ai.arrived : simpl never.
#[local] Arguments Ai.advance : simpl never.
#[local] Arguments SimState.time : simpl never.
#[local] Arguments SimState.update_player : simpl never.

Section Interpolation.
Variables (pid : Z) (bx by_ : num) (dx dy angle : R).
Hypothesis unit_direction : dx ^ 2 + dy ^ 2 = 1.

Lemma remaining_on_ray (rho : R) (x y : num) :
  0 <= rho -> on_ray bx by_ dx dy rho x y -> remaining bx by_ x y = rho.
Proof.
  intros Hrho [Hx Hy]. unfold remaining. rewrite Hx, Hy.
  replace ((val bx - (val bx - rho * dx)) ^ 2
           + (val by_ - (val by_ - rho * dy)) ^ 2)
    with (rho ^ 2 * (dx ^ 2 + dy ^ 2)) by ring.
  rewrite unit_direction, Rmult_1_r. by apply sqrt_pow2.
Qed.

Lemma on_ray_arrived (rho : R) (x y : num) :
  on_ray bx by_ dx dy rho x y ->
  Ai.arrived x y bx by_ = true <-> rho = 0.
Proof.
  intros [Hx Hy]. rewrite arrived_true. split.
  - intros [Ex Ey].
    assert (H : rho ^ 2 * (dx ^ 2 + dy ^ 2) = 0).
    { replace (rho ^ 2 * (dx ^ 2 + dy ^ 2))
        with ((rho * dx) ^ 2 + (rho * dy) ^ 2) by ring.
      replace (rho * dx) with 0 by lra. replace (rho * dy) with 0 by lra.
      ring. }
    rewrite unit_direction, Rmult_1_r in H.
    destruct (Req_dec_T rho 0) as [|Hne]; [done|].
    by apply (pow_nonzero rho 2) in Hne.
  - intros ->. lra.
Qed.

Lemma advance_on_ray (rho : R) (x y : num) (t1 t2 : R) :
  0 <= rho -> on_ray bx by_ dx dy rho x y ->
  Ai.advance bx by_ dx dy x y t1 t2 =
  if decide (Ai.MOVE_SPEED * (t2 - t1) <= rho)
  then (Flt (val x + dx * (Ai.MOVE_SPEED * (t2 - t1))),
        Flt (val y + dy * (Ai.MOVE_SPEED * (t2 - t1))), true)
  else (bx, by_, false).
Proof.
  intros Hrho Hray. pose proof (remaining_on_ray rho x y Hrho Hray) as H.
  unfold remaining in H. unfold Ai.advance. cbv zeta. by rewrite H.
Qed.

Lemma go_to_loop_arrived (s : SimState.t) (x y : num) (t2 : R) (ticks : list R) :
  Ai.arrived x y bx by_ = true ->
  Ai.go_to_loop s pid bx by_ dx dy angle x y t2 ticks
  = Ai.mk_run s [] true ticks.
Proof. intros H. destruct ticks; simpl; by rewrite H. Qed.

Lemma go_to_loop_suspended (s : SimState.t) (x y : num) (t2 : R) :
  Ai.arrived x y bx by_ = false ->
  Ai.go_to_loop s pid bx by_ dx dy angle x y t2 []
  = Ai.mk_run s [] false [].
Proof. intros H. simpl. by rewrite H. Qed.

Lemma go_to_loop_tick (s : SimState.t) (x y : num) (t2 now : R) (ticks : list R) :
  Ai.arrived x y bx by_ = false ->
  Ai.go_to_loop s pid bx by_ dx dy angle x y t2 (now :: ticks) =
  let '(x', y', m) :=
    Ai.advance bx by_ dx dy x y t2 (SimState.time s now) in
  let r :=
    Ai.go_to_loop (SimState.update_player s pid x' y' (Flt angle) m)
      pid bx by_ dx dy angle x' y' (SimState.time s now) ticks in
  Ai.mk_run (Ai.final r)
    (Ai.mk_call pid x' y' (Flt angle) m :: Ai.calls r)
    (Ai.returned r) (Ai.unread r).
Proof. intros H. simpl. by rewrite H. Qed.
(** The loop, entered at distance [rho] from the target with the last
    reading [t2], when every later reading is strictly later. *)
Lemma go_to_loop_spec (ticks : list R) :
  forall (s : SimState.t) (x y : num) (t2 rho : R),
    0 <= rho ->
    on_ray bx by_ dx dy rho x y ->
    Sorted Rlt (t2 :: readings s ticks) ->
    let r := Ai.go_to_loop s pid bx by_ dx dy angle x y t2 ticks in
    Sorted Rgt (rho :: (call_remaining bx by_ <$> Ai.calls r))
    /\ paced bx by_ rho t2 (Ai.calls r) (readings s ticks)
    /\ ((exists t, t ∈ readings s ticks /\ rho < Ai.MOVE_SPEED * (t - t2)) ->
        Ai.returned r = true)
    /\ (forall cs c, Ai.calls r = cs ++ [c] ->
          Forall (fun c' => Ai.c_moving c' = true) cs)
    /\ (Ai.returned r = true ->
        (Ai.calls r = [] /\ rho = 0)
        \/ exists cs c,
             Ai.calls r = cs ++ [c]
             /\ val (Ai.c_x c) = val bx /\ val (Ai.c_y c) = val by_
             /\ ((forall t, t ∈ readings s ticks ->
                    Ai.MOVE_SPEED * (t - t2) <> rho) ->
                 Ai.c_moving c = false
                 /\ Ai.c_x c = bx /\ Ai.c_y c = by_)).
Proof.
  induction ticks as [|now ticks IH]; intros s x y t2 rho Hrho Hray Hsorted r;
    subst r; destruct (Ai.arrived x y bx by_) eqn:Harr.
  - rewrite go_to_loop_arrived by done. simpl.
    split; [|split; [|split; [|split]]]; [repeat constructor|done|done| |].
    + intros [|c0 cs] c H; discriminate.
    + intros _. left. split; [done|]. by apply (on_ray_arrived rho x y).
  - rewrite go_to_loop_suspended by done. simpl.
    split; [|split; [|split; [|split]]]; [repeat constructor|done| | |done].
    + intros (t & Ht & _). by apply elem_of_nil in Ht.
    + intros [|c0 cs] c H; discriminate.
  - rewrite go_to_loop_arrived by done. simpl.
    split; [|split; [|split; [|split]]]; [repeat constructor|done|done| |].
    + intros [|c0 cs] c H; discriminate.
    + intros _. left. split; [done|]. by apply (on_ray_arrived rho x y).
  - assert (Hpos : 0 < rho).
    { destruct (Req_dec_T rho 0) as [E|]; [|lra].
      apply (on_ray_arrived rho x y Hray) in E. congruence. }
    rewrite go_to_loop_tick by done.
    rewrite (advance_on_ray rho x y) by done.
    change (readings s (now :: ticks))
      with (SimState.time s now :: readings s ticks) in *.
    set (t' := SimState.time s now) in *.
    apply Sorted_inv in Hsorted as [Hsorted Hhd]. apply HdRel_inv in Hhd.
    unfold Ai.MOVE_SPEED in *.
    case_decide as Hle.
    + set (x' := Flt (val x + dx * (12500 * (t' - t2)))).
      set (y' := Flt (val y + dy * (12500 * (t' - t2)))).
      assert (Hray' : on_ray bx by_ dx dy (rho - 12500 * (t' - t2)) x' y').
      { destruct Hray as [Hx Hy]. split; simpl; [rewrite Hx|rewrite Hy]; ring. }
      assert (Hrem : call_remaining bx by_
                       (Ai.mk_call pid x' y' (Flt angle) true)
                     = rho - 12500 * (t' - t2)).
      { apply remaining_on_ray; [lra|done]. }
      specialize (IH (SimState.update_player s pid x' y' (Flt angle) true)
                     x' y' t' (rho - 12500 * (t' - t2))).
      rewrite readings_update_player in IH.
      destruct IH as (IH1 & IH2 & IH3 & IH4 & IH5); [lra|done|done|].
      cbv zeta. simpl Ai.calls. simpl Ai.returned.
      split; [|split; [|split; [|split]]].
      * rewrite fmap_cons, Hrem. constructor; [exact IH1|].
        constructor. unfold Rgt. lra.
      * simpl. split; [exact Hrem|]. rewrite Hrem. exact IH2.
      * intros (t & Ht & Hlt). apply IH3.
        apply elem_of_cons in Ht as [->|Ht]; [lra|].
        exists t. split; [done|lra].
      * intros [|c1 cs] c H; [constructor|]. simpl in H.
        injection H as <- H. constructor; [done|]. by apply (IH4 cs c).
      * intros Hret. right.
        destruct (IH5 Hret) as [[Hnil H0]|(cs & c & Hcalls & Hcx & Hcy & Hfin)].
        -- exists [], (Ai.mk_call pid x' y' (Flt angle) true).
           rewrite Hnil. split; [done|]. destruct Hray' as [Hx' Hy'].
           simpl Ai.c_x. simpl Ai.c_y. rewrite Hx', Hy', H0.
           split; [ring|]. split; [ring|].
           intros Hnb. exfalso. apply (Hnb t'); [by left|lra].
        -- exists (Ai.mk_call pid x' y' (Flt angle) true :: cs), c.
           rewrite Hcalls. split; [done|]. split; [done|]. split; [done|].
           intros Hnb. apply Hfin. intros t Ht Heq.
           apply (Hnb t); [by right|lra].
    + rewrite go_to_loop_arrived by by apply arrived_true.
      cbv zeta. simpl Ai.calls. simpl Ai.returned.
      assert (Hrem : call_remaining bx by_
                       (Ai.mk_call pid bx by_ (Flt angle) false) = 0).
      { change (remaining bx by_ bx by_ = 0). unfold remaining.
        replace ((val bx - val bx) ^ 2 + (val by_ - val by_) ^ 2) with 0 by ring.
        apply sqrt_0. }
      split; [|split; [|split; [|split]]].
      * rewrite fmap_cons, Hrem. repeat constructor. done.
      * simpl. done.
      * done.
      * intros [|c1 [|c2 cs]] c H; [constructor|discriminate..].
      * intros _. right. exists [], (Ai.mk_call pid bx by_ (Flt angle) false).
        done.
Qed.
End Interpolation.

(** [go_to] away from the target: the direction is a unit vector, the actor
    starts on the ray at its distance from the target, and the loop is
    entered with the reading taken before it. *)
Lemma go_to_enters_loop (s : SimState.t) (pid : Z) (me : Player.t)
    (bx by_ : num) (now0 : R) (ticks : list R) :
  SimState.players s !! pid = Some me ->
  Ai.arrived (Player.x me) (Player.y me) bx by_ = false ->
  exists dx dy,
    dx ^ 2 + dy ^ 2 = 1
    /\ Ai.norm (val bx - val (Player.x me)) (val by_ - val (Player.y me))
       = Ok (dx, dy)
    /\ on_ray bx by_ dx dy
         (remaining bx by_ (Player.x me) (Player.y me))
         (Player.x me) (Player.y me)
    /\ Ai.go_to s pid bx by_ now0 ticks
       = Ok (Ai.go_to_loop s pid bx by_ dx dy (atan2 dy dx)
               (Player.x me) (Player.y me) (SimState.time s now0) ticks).
Proof.
  intros Hp Harr.
  assert (Hv : val bx - val (Player.x me) <> 0
               \/ val by_ - val (Player.y me) <> 0).
  { apply arrived_false in Harr as [H|H]; [left|right]; lra. }
  destruct (norm_unit _ _ Hv) as (dx & dy & Hnorm & Hunit & Hvx & Hvy).
  exists dx, dy. split; [done|]. split; [done|]. split.
  - unfold on_ray, remaining. split; lra.
  - unfold Ai.go_to. rewrite Hp, Harr, Hnorm. reflexivity.
Qed.




(** An actor that is not registered makes [go_to] raise [KeyError]. *)
Lemma go_to_unregistered (s : SimState.t) (pid : Z) (bx by_ : num)
    (now0 : R) (ticks : list R) :
  SimState.players s !! pid = None ->
  Ai.go_to s pid bx by_ now0 ticks = Raise KeyError.
Proof. intros Hp. unfold Ai.go_to. by rewrite Hp. Qed.

(** C1, as the code has it, in exact arithmetic.  For [go_to] from a
    position other than the target, while every reading of [time()] is
    strictly later than the one before:
    - the run does not raise;
    - the distances to the target of the positions passed to
      [update_player] decrease strictly, from the starting distance on;
    - a call with [moving] true is closer than the previous position by
      [MOVE_SPEED] times the time elapsed since the previous reading, a call
      with [moving] false is at the target;
    - the routine has returned as soon as [MOVE_SPEED] times the time
      elapsed since the first reading exceeds the starting distance;
    - when it has returned, the last position passed equals the target,
      every earlier call has [moving] true, and the last call has [moving]
      false with the target's own coordinates unless a tick's step is exactly
      the distance left. *)
Theorem go_to_progress (s : SimState.t) (pid : Z) (me : Player.t)
    (bx by_ : num) (now0 : R) (ticks : list R) :
  SimState.players s !! pid = Some me ->
  Ai.arrived (Player.x me) (Player.y me) bx by_ = false ->
  Sorted Rlt (SimState.time s now0 :: readings s ticks) ->
  exists r,
    Ai.go_to s pid bx by_ now0 ticks = Ok r
    /\ Sorted Rgt
         (remaining bx by_ (Player.x me) (Player.y me)
          :: (call_remaining bx by_ <$> Ai.calls r))
    /\ paced bx by_ (remaining bx by_ (Player.x me) (Player.y me))
         (SimState.time s now0) (Ai.calls r) (readings s ticks)
    /\ ((exists t, t ∈ readings s ticks
                   /\ remaining bx by_ (Player.x me) (Player.y me)
                      < Ai.MOVE_SPEED * (t - SimState.time s now0)) ->
        Ai.returned r = true)
    /\ (forall cs c, Ai.calls r = cs ++ [c] ->
          Forall (fun c' => Ai.c_moving c' = true) cs)
    /\ (Ai.returned r = true ->
        exists cs c,
          Ai.calls r = cs ++ [c]
          /\ val (Ai.c_x c) = val bx /\ val (Ai.c_y c) = val by_
          /\ ((forall t, t ∈ readings s ticks ->
                 Ai.MOVE_SPEED * (t - SimState.time s now0)
                 <> remaining bx by_ (Player.x me) (Player.y me)) ->
              Ai.c_moving c = false
              /\ Ai.c_x c = bx /\ Ai.c_y c = by_)).
Proof.
  intros Hp Harr Hsorted.
  destruct (go_to_enters_loop s pid me bx by_ now0 ticks Hp Harr)
    as (dx & dy & Hunit & _ & Hray & Hgo).
  set (rho := remaining bx by_ (Player.x me) (Player.y me)) in *.
  assert (Hrho : 0 <= rho) by apply sqrt_pos.
  destruct (go_to_loop_spec pid bx by_ dx dy (atan2 dy dx) Hunit ticks s
              (Player.x me) (Player.y me) (SimState.time s now0) rho
              Hrho Hray Hsorted)
    as (H1 & H2 & H3 & H4 & H5).
  eexists. split; [exact Hgo|].
  split; [exact H1|]. split; [exact H2|]. split; [exact H3|].
  split; [exact H4|].
  intros Hret. destruct (H5 Hret) as [[_ H0]|H]; [|exact H].
  apply (on_ray_arrived bx by_ dx dy Hunit rho _ _ Hray) in H0. congruence.
Qed.

Lemma go_to_progress_witness :
  exists r,
    Ai.go_to (SimState.add_player SimState.init 1 "hi") 1
      (Int 30000) (Int 40000) 0 [1; 2; 3; 5] = Ok r
    /\ Ai.returned r = true.
Proof.
  destruct (go_to_progress (SimState.add_player SimState.init 1 "hi") 1
              (Player.new 1 "hi") (Int 30000) (Int 40000) 0 [1; 2; 3; 5])
    as (r & Hgo & _ & _ & Hret & _).
  - apply lookup_insert_eq.
  - apply arrived_false. left. change (IZR 0 <> IZR 30000).
    intros H%eq_IZR. discriminate.
  - unfold readings, SimState.time. simpl. repeat constructor; lra.
  - exists r. split; [exact Hgo|]. apply Hret. exists (5 - 0 - 0).
    split.
    + unfold readings, SimState.time. simpl. set_solver.
    + unfold remaining, SimState.time, Ai.MOVE_SPEED. simpl val.
      replace ((30000 - 0) ^ 2 + (40000 - 0) ^ 2) with (50000 * 50000) by ring.
      rewrite sqrt_square; simpl; lra.
Defined.

(** *** Where the claim fails *)

Lemma remaining_val_eq (bx by_ x y x' y' : num) :
  val x = val x' -> val y = val y' ->
  remaining bx by_ x y = remaining bx by_ x' y'.
Proof. unfold remaining. by intros -> ->. Qed.

Lemma pause_time_update_player (s : SimState.t) (pid : Z) (x y a : num) (m : bool) :
  SimState.pause_time (SimState.update_player s pid x y a m)
  = SimState.pause_time s.
Proof.
  unfold SimState.update_player. by destruct (SimState.players s !! pid).
Qed.

(** With no time elapsed the step is zero, and the actor "moves" by it. *)
Lemma advance_stalled (bx by_ : num) (dx dy : R) (x y : num) (t : R) :
  Ai.advance bx by_ dx dy x y t t
  = (Flt (val x + dx * (Ai.MOVE_SPEED * (t - t))),
     Flt (val y + dy * (Ai.MOVE_SPEED * (t - t))), true).
Proof.
  unfold Ai.advance. cbv zeta. rewrite decide_True; [done|].
  replace (Ai.MOVE_SPEED * (t - t)) with 0 by ring. apply sqrt_pos.
Qed.

(** While the clock is paused [go_to] never returns: at every tick it passes
    its unchanged position to [update_player], with [moving] true. *)
Lemma go_to_loop_paused (pid : Z) (bx by_ : num) (dx dy angle : R)
    (ticks : list R) :
  forall (s : SimState.t) (x y : num) (t0 : R),
    SimState.pause_time s = Some t0 ->
    Ai.arrived x y bx by_ = false ->
    Ai.returned (Ai.go_to_loop s pid bx by_ dx dy angle x y t0 ticks) = false
    /\ length (Ai.calls (Ai.go_to_loop s pid bx by_ dx dy angle x y t0 ticks))
       = length ticks
    /\ Forall (fun c => Ai.c_moving c = true
                        /\ val (Ai.c_x c) = val x /\ val (Ai.c_y c) = val y)
         (Ai.calls (Ai.go_to_loop s pid bx by_ dx dy angle x y t0 ticks)).
Proof.
  induction ticks as [|now ticks IH]; intros s x y t0 Hp Harr.
  - rewrite go_to_loop_suspended by done. simpl. by repeat split.
  - rewrite go_to_loop_tick by done.
    assert (Ht : SimState.time s now = t0) by (unfold SimState.time; by rewrite Hp).
    rewrite Ht, advance_stalled.
    set (x' := Flt (val x + dx * (Ai.MOVE_SPEED * (t0 - t0)))).
    set (y' := Flt (val y + dy * (Ai.MOVE_SPEED * (t0 - t0)))).
    assert (Hx : val x' = val x) by (simpl; ring).
    assert (Hy : val y' = val y) by (simpl; ring).
    destruct (IH (SimState.update_player s pid x' y' (Flt angle) true) x' y' t0)
      as (IH1 & IH2 & IH3).
    { by rewrite pause_time_update_player. }
    { apply arrived_false. rewrite Hx, Hy. by apply arrived_false. }
    cbv zeta. simpl Ai.calls. simpl Ai.returned.
    split; [exact IH1|]. split; [simpl; by rewrite IH2|].
    constructor; [done|].
    eapply Forall_impl; [exact IH3|]. intros c (Hm & Hcx & Hcy).
    split; [exact Hm|]. split; [by rewrite Hcx|by rewrite Hcy].
Qed.

(** C1, as stated, fails.  The clock is paused; the actor at (0, 0) is sent
    to (3, 4).  After two ticks the routine has not returned and has passed
    two positions to [update_player] that are equally far from the target. *)
Lemma go_to_paused_makes_no_progress :
  exists r,
    Ai.go_to (SimState.pause (SimState.add_player SimState.init 1 "hi") 0) 1
      (Int 3) (Int 4) 10 [11; 12] = Ok r
    /\ Ai.returned r = false
    /\ ~ Sorted Rgt (call_remaining (Int 3) (Int 4) <$> Ai.calls r).
Proof.
  destruct (go_to_enters_loop
              (SimState.pause (SimState.add_player SimState.init 1 "hi") 0) 1
              (Player.new 1 "hi") (Int 3) (Int 4) 10 [11; 12])
    as (dx & dy & _ & _ & _ & Hgo).
  { apply lookup_insert_eq. }
  { apply arrived_false. left. change (IZR 0 <> IZR 3).
    intros H%eq_IZR. discriminate. }
  eexists. split; [exact Hgo|].
  destruct (go_to_loop_paused 1 (Int 3) (Int 4) dx dy (atan2 dy dx) [11; 12]
              (SimState.pause (SimState.add_player SimState.init 1 "hi") 0)
              (Int 0) (Int 0) (0 - 0 - 0))
    as (Hret & Hlen & Hall).
  { reflexivity. }
  { apply arrived_false. left. change (IZR 0 <> IZR 3).
    intros H%eq_IZR. discriminate. }
  change (SimState.time
            (SimState.pause (SimState.add_player SimState.init 1 "hi") 0) 10)
    with (0 - 0 - 0).
  change (Player.x (Player.new 1 "hi")) with (Int 0).
  change (Player.y (Player.new 1 "hi")) with (Int 0).
  split; [exact Hret|].
  destruct (Ai.calls _) as [|c1 [|c2 [|c3 cs]]]; simpl in Hlen; try discriminate.
  apply Forall_cons in Hall as [(_ & Hx1 & Hy1) Hall].
  apply Forall_cons in Hall as [(_ & Hx2 & Hy2) _].
  intros Hs. simpl in Hs. apply Sorted_inv in Hs as [_ Hs].
  apply HdRel_inv in Hs. unfold Rgt, call_remaining in Hs.
  rewrite (remaining_val_eq (Int 3) (Int 4) (Ai.c_x c1) (Ai.c_y c1)
             (Ai.c_x c2) (Ai.c_y c2)) in Hs by congruence.
  lra.
Qed.

(** The boundary of the test [rdist >= dist]: a tick whose step is exactly
    the distance left moves the actor onto the target with [moving] true, and
    the loop then ends without a call that clears the flag.  Here the actor
    is 12500 away and one second passes. *)
Lemma go_to_exact_step_ends_moving :
  exists r c,
    Ai.go_to (SimState.add_player SimState.init 1 "hi") 1
      (Int 12500) (Int 0) 0 [1] = Ok r
    /\ Ai.returned r = true
    /\ Ai.calls r = [c]
    /\ Ai.c_moving c = true
    /\ val (Ai.c_x c) = 12500 /\ val (Ai.c_y c) = 0.
Proof.
  destruct (go_to_enters_loop (SimState.add_player SimState.init 1 "hi") 1
              (Player.new 1 "hi") (Int 12500) (Int 0) 0 [1])
    as (dx & dy & Hunit & _ & Hray & Hgo).
  { apply lookup_insert_eq. }
  { apply arrived_false. left. change (IZR 0 <> IZR 12500).
    intros H%eq_IZR. discriminate. }
  change (Player.x (Player.new 1 "hi")) with (Int 0) in *.
  change (Player.y (Player.new 1 "hi")) with (Int 0) in *.
  assert (Hrho : remaining (Int 12500) (Int 0) (Int 0) (Int 0) = 12500).
  { unfold remaining. change (val (Int 12500)) with 12500.
    change (val (Int 0)) with 0.
    replace ((12500 - 0) ^ 2 + (0 - 0) ^ 2) with (12500 * 12500) by ring.
    apply sqrt_square. lra. }
  rewrite Hrho in Hray.
  assert (Harr : Ai.arrived (Int 0) (Int 0) (Int 12500) (Int 0) = false).
  { apply arrived_false. left. change (IZR 0 <> IZR 12500).
    intros H%eq_IZR. discriminate. }
  rewrite Hgo, go_to_loop_tick by done.
  rewrite (advance_on_ray (Int 12500) (Int 0) dx dy Hunit 12500) by (done || lra).
  assert (Hdt : Ai.MOVE_SPEED
                * (SimState.time (SimState.add_player SimState.init 1 "hi") 1
                   - SimState.time (SimState.add_player SimState.init 1 "hi") 0)
                = 12500).
  { unfold Ai.MOVE_SPEED, SimState.time. simpl. lra. }
  rewrite Hdt, decide_True by lra.
  destruct Hray as [Hx Hy].
  assert (Hx' : val (Flt (val (Int 0) + dx * 12500)) = val (Int 12500)).
  { simpl val in *. lra. }
  assert (Hy' : val (Flt (val (Int 0) + dy * 12500)) = val (Int 0)).
  { simpl val in *. lra. }
  rewrite go_to_loop_arrived by by apply arrived_true.
  eexists _, _. cbv zeta. simpl Ai.calls. simpl Ai.returned.
  repeat split; [exact Hx'|exact Hy'].
Qed.

(* ================================================================== *)
(** * Further properties of the registry *)

(** ** Buffs *)

(** X1. After [add_buff(id, deadline)] the player holds the buff, stored with
    that id and deadline; the answer of [has_buff] for every other id is as
    before, and so is every other buff; adding the same id again replaces
    the buff, so a player holds at most one buff per id; nothing but the
    buffs changes: id, name, position, angle and moving flag are as
    before. *)
Theorem add_buff_has_buff (p : Player.t) (bid bid' : Z) (dl dl' : R) :
  Player.has_buff (Player.add_buff p bid dl) bid' =
    (if decide (bid' = bid) then true else Player.has_buff p bid')
  /\ Player.buffs (Player.add_buff p bid dl) !! bid = Some (Buff.mk bid dl)
  /\ Player.add_buff (Player.add_buff p bid dl') bid dl = Player.add_buff p bid dl
  /\ Player.id (Player.add_buff p bid dl) = Player.id p
  /\ Player.name (Player.add_buff p bid dl) = Player.name p
  /\ Player.x (Player.add_buff p bid dl) = Player.x p
  /\ Player.y (Player.add_buff p bid dl) = Player.y p
  /\ Player.angle (Player.add_buff p bid dl) = Player.angle p
  /\ Player.moving (Player.add_buff p bid dl) = Player.moving p
  /\ (forall i, i <> bid ->
        Player.buffs (Player.add_buff p bid dl) !! i = Player.buffs p !! i).
Proof.
  split; [|split; [|split]];
    [| |unfold Player.add_buff; simpl
     |do 6 (split; [done|]); intros i Hi; simpl; by rewrite lookup_insert_ne].
  - unfold Player.has_buff, Player.add_buff; simpl. case_decide as E.
    + subst. rewrite lookup_insert_eq. by apply bool_decide_eq_true.
    + by rewrite lookup_insert_ne.
  - apply lookup_insert_eq.
  - by rewrite insert_insert_eq.
Qed.

(** X2. Removing a buff the player holds returns normally, the player no
    longer holds it, every other buff is as before, and removing it a second
    time raises [KeyError]. *)
Theorem remove_buff_held (p : Player.t) (bid : Z) (b : Buff.t) :
  Player.buffs p !! bid = Some b ->
  exists p',
    Player.remove_buff p bid = Ok p'
    /\ Player.has_buff p' bid = false
    /\ (forall i, i <> bid -> Player.buffs p' !! i = Player.buffs p !! i)
    /\ Player.remove_buff p' bid = Raise KeyError.
Proof.
  intros Hb. unfold Player.remove_buff at 1. rewrite Hb.
  eexists. split; [done|]. split; [|split].
  - unfold Player.has_buff; simpl. rewrite lookup_delete_eq.
    apply bool_decide_eq_false. by intros [? ?].
  - intros i Hi. simpl. by rewrite lookup_delete_ne.
  - unfold Player.remove_buff; simpl. by rewrite lookup_delete_eq.
Qed.

Lemma remove_buff_held_witness :
  exists p',
    Player.remove_buff (Player.add_buff (Player.new 1 "hi") 9 4) 9 = Ok p'
    /\ Player.has_buff p' 9 = false
    /\ (forall i, i <> 9%Z ->
          Player.buffs p' !! i
          = Player.buffs (Player.add_buff (Player.new 1 "hi") 9 4) !! i)
    /\ Player.remove_buff p' 9 = Raise KeyError.
Proof.
  apply (remove_buff_held (Player.add_buff (Player.new 1 "hi") 9 4) 9
           (Buff.mk 9 4)).
  apply lookup_insert_eq.
Defined.

(** X3. Adding a buff the player did not hold and removing it again gives
    the player back as it was. *)
Theorem add_remove_buff (p : Player.t) (bid : Z) (dl : R) :
  Player.buffs p !! bid = None ->
  Player.remove_buff (Player.add_buff p bid dl) bid = Ok p.
Proof.
  intros Hb. unfold Player.remove_buff, Player.add_buff; simpl.
  rewrite lookup_insert_eq, delete_insert_eq, delete_id by done.
  by destruct p.
Qed.

Lemma add_remove_buff_witness :
  Player.remove_buff (Player.add_buff (Player.new 1 "hi") 9 4) 9
  = Ok (Player.new 1 "hi").
Proof.
  apply (add_remove_buff (Player.new 1 "hi") 9 4). apply lookup_empty.
Defined.

(** ** Players and enemies *)

(** X4. Registering an id that was free and removing it again gives the
    registry back as it was, for players and for enemies. *)
Theorem add_then_remove (s : SimState.t) (pid eid : Z) (nm nm' : string)
    (x y : num) (angle : R) :
  SimState.players s !! pid = None ->
  SimState.enemies s !! eid = None ->
  SimState.remove_player (SimState.add_player s pid nm) pid = s
  /\ SimState.remove_enemy (SimState.add_enemy s eid nm' x y angle) eid = s.
Proof.
  intros Hp He. destruct s as [ps es ab pt so po]; simpl in *.
  unfold SimState.remove_player, SimState.remove_enemy,
    SimState.add_player, SimState.add_enemy; simpl.
  rewrite !lookup_insert_eq, !delete_insert_eq, !delete_id by done. done.
Qed.

Lemma add_then_remove_witness :
  SimState.remove_player (SimState.add_player SimState.init 3 "ally") 3
  = SimState.init
  /\ SimState.remove_enemy
       (SimState.add_enemy SimState.init 5 "Nidstinein" (Int 0) (Int 0) 0) 5
     = SimState.init.
Proof.
  apply (add_then_remove SimState.init 3 5 "ally" "Nidstinein" (Int 0) (Int 0) 0);
    apply lookup_empty.
Defined.

(** X5. Of two position updates for the same player the later one wins: the
    registry after both is the registry after the second alone. *)
Theorem update_player_last_wins (s : SimState.t) (pid : Z)
    (x1 y1 a1 x2 y2 a2 : num) (m1 m2 : bool) :
  SimState.update_player (SimState.update_player s pid x1 y1 a1 m1)
    pid x2 y2 a2 m2
  = SimState.update_player s pid x2 y2 a2 m2.
Proof.
  unfold SimState.update_player.
  destruct (SimState.players s !! pid) as [p|] eqn:Hp; simpl.
  - rewrite lookup_insert_eq. simpl. by rewrite insert_insert_eq.
  - by rewrite Hp.
Qed.

(** ** Invariants over histories *)

Lemma time_monotone (s : SimState.t) (now now' : R) :
  now <= now' -> SimState.time s now <= SimState.time s now'.
Proof. unfold SimState.time. destruct (SimState.pause_time s); lra. Qed.

Lemma apply_keeps_spaced (s s' : SimState.t) (now : R) (o : op) :
  reads_forward now o ->
  abilities_keyed s -> deadlines_spaced s -> apply s now o = Ok s' ->
  deadlines_spaced s'.
Proof.
  unfold deadlines_spaced. intros Hf Hk Hd Happ. destruct o; simpl in Happ.
  - by simplify_eq.
  - unfold SimState.update_player in Happ.
    destruct (SimState.players s !! pid); by simplify_eq.
  - unfold SimState.remove_player in Happ.
    destruct (SimState.players s !! pid); by simplify_eq.
  - by simplify_eq.
  - unfold SimState.remove_enemy in Happ.
    destruct (SimState.enemies s !! eid); by simplify_eq.
  - simplify_eq. simpl. apply map_Forall_insert_2; [|done]. simpl.
    simpl in Hf. unfold SimState.time. destruct (SimState.pause_time s); lra.
  - destruct (gc_abilities_lookup s now Hk) as (m & Hgc & Hm).
    rewrite Hgc in Happ. simplify_eq. intros k a Hka. simpl in Hka.
    rewrite Hm in Hka.
    destruct (SimState.abilities s !! k) as [a'|] eqn:Ha'; [|done].
    case_decide; [done|]. simplify_eq. by apply (Hd k a).
  - by simplify_eq.
  - by simplify_eq.
  - by simplify_eq.
  - unfold on_player in Happ.
    destruct (SimState.players s !! pid); simpl in Happ; by simplify_eq.
  - unfold on_player in Happ.
    destruct (SimState.players s !! pid) as [p|]; simpl in Happ; [|done].
    destruct (Player.remove_buff p bid); simpl in Happ; by simplify_eq.
Qed.



Lemma reachable_keyed_spaced (h : list (R * op)) :
  forall s0 s : SimState.t,
    history_forward h ->
    abilities_keyed s0 /\ deadlines_spaced s0 ->
    apply_all s0 h = Ok s ->
    abilities_keyed s /\ deadlines_spaced s.
Proof.
  induction h as [|[now o] h IH]; simpl; intros s0 s Hf Hi Ha.
  - by simplify_eq.
  - destruct (apply s0 now o) as [s1|] eqn:E; simpl in Ha; [|done].
    apply Forall_cons in Hf as [Ho Hf]. simpl in Ho.
    destruct Hi as (Hk & Hd). eapply IH; [done| |done].
    split; [by eapply apply_keeps_keyed|by eapply apply_keeps_spaced].
Qed.

Lemma init_keyed_spaced :
  abilities_keyed SimState.init /\ deadlines_spaced SimState.init.
Proof. split; apply map_Forall_empty. Qed.



(** ** Abilities and their expiry *)

Lemma time_add_ability (s : SimState.t) (aid : Z) (nm : string)
    (d now later now' : R) :
  SimState.time (SimState.add_ability s aid nm d now later) now'
  = SimState.time s now'.
Proof. reflexivity. Qed.

(** X7. An ability added with duration [d], when [time()] reads [t] at the
    first call of [add_ability] and [t'] at the second, has the cast
    deadline [t + d], survives every collection made while [time()] reads at
    most [t' + d + 1], and is removed by a collection made at any later
    reading.  So when the wall clock did not go back between the two calls,
    the ability outlives its cast by a full time unit at least. *)
Theorem ability_lifetime (s : SimState.t) (aid : Z) (nm : string)
    (d now later now' : R) :
  abilities_keyed s ->
  exists s2,
    SimState.gc_abilities (SimState.add_ability s aid nm d now later) now'
    = Ok s2
    /\ SimState.abilities s2 !! aid =
       (if decide (SimState.time s later + d + 1 < SimState.time s now')
        then None
        else Some (Ability.mk aid nm (SimState.time s now + d)
                     (SimState.time s later + d + 1)))
    /\ (now <= later ->
        SimState.time s now' <= SimState.time s now + d + 1 ->
        SimState.abilities s2 !! aid
        = Some (Ability.mk aid nm (SimState.time s now + d)
                  (SimState.time s later + d + 1))).
Proof.
  intros Hk.
  assert (Hk' : abilities_keyed (SimState.add_ability s aid nm d now later)).
  { unfold abilities_keyed; simpl. by apply map_Forall_insert_2. }
  destruct (gc_abilities_lookup _ now' Hk') as (m & Hgc & Hm).
  assert (Hl : m !! aid =
               if decide (SimState.time s later + d + 1 < SimState.time s now')
               then None
               else Some (Ability.mk aid nm (SimState.time s now + d)
                            (SimState.time s later + d + 1))).
  { rewrite Hm. simpl. rewrite lookup_insert_eq. simpl.
    by rewrite time_add_ability. }
  eexists. split; [exact Hgc|]. simpl. split; [exact Hl|].
  intros Hle Ht. rewrite Hl. apply decide_False.
  pose proof (time_monotone s now later Hle). lra.
Qed.

Lemma ability_lifetime_witness :
  exists s2,
    SimState.gc_abilities
      (SimState.add_ability SimState.init 7 "Gnash" 2 100 (1001 / 10)) 103
    = Ok s2
    /\ SimState.abilities s2 !! 7%Z =
       (if decide (SimState.time SimState.init (1001 / 10) + 2 + 1
                   < SimState.time SimState.init 103)
        then None
        else Some (Ability.mk 7 "Gnash" (SimState.time SimState.init 100 + 2)
                     (SimState.time SimState.init (1001 / 10) + 2 + 1)))
    /\ (100 <= 1001 / 10 ->
        SimState.time SimState.init 103
        <= SimState.time SimState.init 100 + 2 + 1 ->
        SimState.abilities s2 !! 7%Z
        = Some (Ability.mk 7 "Gnash" (SimState.time SimState.init 100 + 2)
                  (SimState.time SimState.init (1001 / 10) + 2 + 1))).
Proof.
  apply (ability_lifetime SimState.init 7 "Gnash" 2 100 (1001 / 10) 103).
  apply map_Forall_empty.
Defined.

(** X8. Collecting at one reading of [time()] and then at a later one leaves
    the registry that the later collection alone leaves. *)
Theorem gc_abilities_compose (s : SimState.t) (now1 now2 : R) :
  abilities_keyed s ->
  SimState.time s now1 <= SimState.time s now2 ->
  exists s1 s2,
    SimState.gc_abilities s now1 = Ok s1
    /\ SimState.gc_abilities s1 now2 = Ok s2
    /\ SimState.gc_abilities s now2 = Ok s2.
Proof.
  intros Hk Ht.
  destruct (gc_abilities_lookup s now1 Hk) as (m1 & Hgc1 & Hm1).
  destruct (gc_abilities_lookup s now2 Hk) as (m2 & Hgc2 & Hm2).
  set (s1 := SimState.mk (SimState.players s) (SimState.enemies s) m1
               (SimState.pause_time s) (SimState.server_offset s)
               (SimState.pause_offset s)) in *.
  assert (Hk1 : abilities_keyed s1).
  { apply (apply_keeps_keyed s s1 now1 GcAbilities Hk). exact Hgc1. }
  destruct (gc_abilities_lookup s1 now2 Hk1) as (m12 & Hgc12 & Hm12).
  exists s1. eexists. split; [exact Hgc1|]. split; [exact Hgc12|].
  rewrite Hgc2. subst s1; simpl. do 2 f_equal.
  apply map_eq. intros k. rewrite Hm2, Hm12. simpl. rewrite Hm1.
  change (SimState.time (SimState.mk (SimState.players s) (SimState.enemies s)
            m1 (SimState.pause_time s) (SimState.server_offset s)
            (SimState.pause_offset s)) now2)
    with (SimState.time s now2).
  destruct (SimState.abilities s !! k) as [a|]; [|done].
  repeat case_decide; try done; lra.
Qed.

Lemma gc_abilities_compose_witness :
  exists s1 s2,
    SimState.gc_abilities
      (SimState.add_ability SimState.init 7 "Gnash" 2 100 100) 102 = Ok s1
    /\ SimState.gc_abilities s1 104 = Ok s2
    /\ SimState.gc_abilities
         (SimState.add_ability SimState.init 7 "Gnash" 2 100 100) 104 = Ok s2.
Proof.
  apply (gc_abilities_compose
           (SimState.add_ability SimState.init 7 "Gnash" 2 100 100) 102 104).
  - apply (reachable_keyed [(100, AddAbility 7 "Gnash" 2 100)]). reflexivity.
  - unfold SimState.time; simpl. lra.
Defined.

(** ** Reset *)

(** X9. [reset()] twice is [reset()] once; it leaves the clock as it is,
    paused or running; and after it every removal of a buff raises
    [KeyError], whoever the player and whatever the buff, since no player
    holds a buff any more. *)
Theorem reset_then (s : SimState.t) (now : R) (pid bid : Z) :
  SimState.reset (SimState.reset s) = SimState.reset s
  /\ SimState.pause_time (SimState.reset s) = SimState.pause_time s
  /\ SimState.time (SimState.reset s) now = SimState.time s now
  /\ apply (SimState.reset s) now (RemoveBuff pid bid) = Raise KeyError.
Proof.
  split; [|split; [done|split; [done|]]].
  - unfold SimState.reset; simpl. f_equal.
    rewrite <- map_fmap_compose. by apply map_fmap_ext.
  - simpl. unfold on_player, SimState.reset; simpl. rewrite lookup_fmap.
    by destruct (SimState.players s !! pid).
Qed.

(** ** The clock over a history *)

Lemma apply_keeps_reading (s s' : SimState.t) (now : R) (o : op) :
  (forall c, o <> Unpause c) ->
  apply s now o = Ok s' ->
  SimState.time s now <= SimState.time s' now
  /\ forall now', now <= now' -> SimState.time s now <= SimState.time s' now'.
Proof.
  intros Hne Happ.
  assert (H : forall now', now <= now' ->
                SimState.time s now <= SimState.time s' now').
  { intros now' Hle. destruct o; simpl in Happ;
      try (by destruct (Hne offset));
      try unfold SimState.remove_player in Happ;
      try unfold SimState.remove_enemy in Happ;
      try unfold SimState.gc_abilities in Happ;
      try unfold on_player in Happ.
    1, 4, 6, 8: injection Happ as <-; unfold SimState.time; simpl;
      destruct (SimState.pause_time s); lra.
    - injection Happ as <-. rewrite time_update_player.
      unfold SimState.time; destruct (SimState.pause_time s); lra.
    - destruct (SimState.players s !! pid); injection Happ as <-;
        unfold SimState.time; simpl; destruct (SimState.pause_time s); lra.
    - destruct (SimState.enemies s !! eid); injection Happ as <-;
        unfold SimState.time; simpl; destruct (SimState.pause_time s); lra.
    - destruct (set_fold _ _ _); simpl in Happ; [|done].
      injection Happ as <-. unfold SimState.time; simpl.
      destruct (SimState.pause_time s); lra.
    - injection Happ as <-. unfold SimState.time at 2. simpl. lra.
    - destruct (SimState.players s !! pid); simpl in Happ; [|done].
      injection Happ as <-. unfold SimState.time; simpl.
      destruct (SimState.pause_time s); lra.
    - destruct (SimState.players s !! pid) as [p|]; simpl in Happ; [|done].
      destruct (Player.remove_buff p bid); simpl in Happ; [|done].
      injection Happ as <-. unfold SimState.time; simpl.
      destruct (SimState.pause_time s); lra. }
  split; [apply H; lra|exact H].
Qed.

(** X10. Along a history of calls with no [unpause], made at wall clock
    readings that never go back, the reading of [time()] never goes back:
    whatever is added, removed, collected, reset or paused in between, a later
    reading is at least the earlier one. *)
Theorem clock_never_goes_back (h : list (R * op)) :
  forall (s s' : SimState.t) (now now' : R),
    Forall (fun c => forall c', snd c <> Unpause c') h ->
    wall_ordered now h ->
    Forall (fun c => fst c <= now') h ->
    now <= now' ->
    apply_all s h = Ok s' ->
    SimState.time s now <= SimState.time s' now'.
Proof.
  induction h as [|[w o] h IH]; simpl; intros s s' now now' Hne Hord Hmax Hle Hall.
  - simplify_eq. by apply time_monotone.
  - destruct (apply s w o) as [s1|] eqn:E; simpl in Hall; [|done].
    apply Forall_cons in Hne as [Ho Hne]. apply Forall_cons in Hmax as [Hw Hmax].
    destruct Hord as [Hnw Hord]. simpl in *.
    destruct (apply_keeps_reading s s1 w o Ho E) as [H1 _].
    pose proof (time_monotone s now w Hnw).
    pose proof (IH s1 s' w now' Hne Hord Hmax Hw Hall). lra.
Qed.

Lemma clock_never_goes_back_witness :
  SimState.time (SimState.unpause SimState.init 2) 10
  <= SimState.time
       (SimState.reset
          (SimState.pause
             (SimState.add_player (SimState.unpause SimState.init 2) 1 "hi")
             12))
       20.
Proof.
  apply (clock_never_goes_back
           [(11, AddPlayer 1 "hi"); (12, Pause); (13, Reset)]
           (SimState.unpause SimState.init 2) _ 10 20).
  - repeat constructor; simpl; discriminate.
  - simpl. lra.
  - repeat constructor; simpl; lra.
  - lra.
  - reflexivity.
Defined.

(* ================================================================== *)
(** * Further properties of the behaviour routines *)

(** ** [go_to] on an arbitrary clock *)

Lemma go_to_loop_shape (pid : Z) (bx by_ : num) (dx dy angle : R)
    (ticks : list R) :
  forall (s : SimState.t) (x y : num) (t2 : R),
    (exists used,
        ticks = used
                ++ Ai.unread (Ai.go_to_loop s pid bx by_ dx dy angle x y t2 ticks)
        /\ length used
           = length (Ai.calls
                       (Ai.go_to_loop s pid bx by_ dx dy angle x y t2 ticks)))
    /\ Forall (fun c => Ai.c_pid c = pid /\ Ai.c_angle c = Flt angle)
         (Ai.calls (Ai.go_to_loop s pid bx by_ dx dy angle x y t2 ticks))
    /\ (forall cs c cs',
          Ai.calls (Ai.go_to_loop s pid bx by_ dx dy angle x y t2 ticks)
          = cs ++ c :: cs' ->
          Ai.c_moving c = false ->
          cs' = []
          /\ Ai.returned (Ai.go_to_loop s pid bx by_ dx dy angle x y t2 ticks)
             = true
          /\ Ai.c_x c = bx /\ Ai.c_y c = by_)
    /\ (Ai.returned (Ai.go_to_loop s pid bx by_ dx dy angle x y t2 ticks)
        = false ->
        Ai.unread (Ai.go_to_loop s pid bx by_ dx dy angle x y t2 ticks) = [])
    /\ (Ai.returned (Ai.go_to_loop s pid bx by_ dx dy angle x y t2 ticks)
        = true ->
        match last (Ai.calls
                      (Ai.go_to_loop s pid bx by_ dx dy angle x y t2 ticks)) with
        | None => val x = val bx /\ val y = val by_
        | Some c => val (Ai.c_x c) = val bx /\ val (Ai.c_y c) = val by_
        end).
Proof.
  induction ticks as [|now ticks IH]; intros s x y t2.
  - destruct (Ai.arrived x y bx by_) eqn:Ha.
    + rewrite go_to_loop_arrived by done. simpl.
      split; [by exists []|]. split; [constructor|]. split.
      { by intros [|? ?] ? ? ?. }
      split; [done|]. intros _. by apply arrived_true.
    + rewrite go_to_loop_suspended by done. simpl.
      split; [by exists []|]. split; [constructor|]. split.
      { by intros [|? ?] ? ? ?. }
      split; [done|]. done.
  - destruct (Ai.arrived x y bx by_) eqn:Ha.
    + rewrite go_to_loop_arrived by done. simpl.
      split; [by exists []|]. split; [constructor|]. split.
      { by intros [|? ?] ? ? ?. }
      split; [done|]. intros _. by apply arrived_true.
    + rewrite go_to_loop_tick by done.
      destruct (Ai.advance bx by_ dx dy x y t2 (SimState.time s now))
        as [[x' y'] m] eqn:Hadv.
      cbv zeta.
      set (s' := SimState.update_player s pid x' y' (Flt angle) m).
      destruct (IH s' x' y' (SimState.time s now))
        as ((used & Hused & Hlen) & Hall & Hstop & Hsusp & Hret).
      set (r := Ai.go_to_loop s' pid bx by_ dx dy angle x' y'
                  (SimState.time s now) ticks) in *.
      simpl. split; [|split; [|split; [|split]]].
      * exists (now :: used). simpl. split; [by f_equal|by f_equal].
      * by constructor.
      * intros cs c cs' Hcs Hm. destruct cs as [|c0 cs]; simpl in Hcs.
        -- injection Hcs as <- Hcs'. simpl in Hm. subst m.
           assert (Hxy : x' = bx /\ y' = by_).
           { unfold Ai.advance in Hadv. cbv zeta in Hadv.
             case_decide; simplify_eq. done. }
           destruct Hxy as [-> ->].
           assert (Hr : r = Ai.mk_run s' [] true ticks).
           { subst r. apply go_to_loop_arrived. by apply arrived_true. }
           rewrite Hr in *. simpl in *. by subst cs'.
        -- injection Hcs as <- Hcs'. by apply (Hstop cs c cs').
      * exact Hsusp.
      * intros Hr. specialize (Hret Hr). rewrite last_cons.
        destruct (last (Ai.calls r)); [done|]. simpl. exact Hret.
Qed.

(** X11. Taken in exact arithmetic, where the direction can always be
    computed: whatever the clock reads at the ticks (going on, standing
    still or going back), [go_to] for a registered actor makes one call to
    [update_player] per tick it consumes, every call for the actor itself
    and with one and the same angle; a call with [moving] false carries the
    target itself, is the last call, and [go_to] has then returned; a
    suspended [go_to] has consumed every tick, each with [moving] true; and
    when [go_to] has returned, the last position it wrote (the actor's own
    when it wrote none) has the coordinates of the target. *)
Theorem go_to_shape (s : SimState.t) (pid : Z) (me : Player.t)
    (bx by_ : num) (now0 : R) (ticks : list R) :
  SimState.players s !! pid = Some me ->
  exists r angle used,
    Ai.go_to s pid bx by_ now0 ticks = Ok r
    /\ ticks = used ++ Ai.unread r
    /\ length used = length (Ai.calls r)
    /\ Forall (fun c => Ai.c_pid c = pid /\ Ai.c_angle c = Flt angle)
         (Ai.calls r)
    /\ (forall cs c cs',
          Ai.calls r = cs ++ c :: cs' -> Ai.c_moving c = false ->
          cs' = [] /\ Ai.returned r = true
          /\ Ai.c_x c = bx /\ Ai.c_y c = by_)
    /\ (Ai.returned r = false ->
        Ai.unread r = []
        /\ Forall (fun c => Ai.c_moving c = true) (Ai.calls r))
    /\ (Ai.returned r = true ->
        match last (Ai.calls r) with
        | None => val (Player.x me) = val bx /\ val (Player.y me) = val by_
        | Some c => val (Ai.c_x c) = val bx /\ val (Ai.c_y c) = val by_
        end).
Proof.
  intros Hme.
  destruct (Ai.arrived (Player.x me) (Player.y me) bx by_) eqn:Ha.
  - exists (Ai.mk_run s [] true ticks), 0, [].
    unfold Ai.go_to. rewrite Hme, Ha. simpl.
    split; [done|]. split; [done|]. split; [done|]. split; [constructor|].
    split; [by intros [|? ?] ? ? ?|]. split; [done|].
    intros _. by apply arrived_true.
  - destruct (go_to_enters_loop s pid me bx by_ now0 ticks Hme Ha)
      as (dx & dy & _ & _ & _ & Hgo).
    destruct (go_to_loop_shape pid bx by_ dx dy (atan2 dy dx) ticks s
                (Player.x me) (Player.y me) (SimState.time s now0))
      as ((used & Hused & Hlen) & Hall & Hstop & Hsusp & Hret).
    eexists _, (atan2 dy dx), used. split; [exact Hgo|].
    split; [exact Hused|]. split; [exact Hlen|]. split; [exact Hall|].
    split; [exact Hstop|]. split; [|exact Hret].
    intros Hr. split; [by apply Hsusp|].
    apply Forall_forall. intros c Hc.
    apply list_elem_of_split in Hc as (cs & cs' & Hcs).
    destruct (Ai.c_moving c) eqn:Hm; [done|].
    destruct (Hstop cs c cs' Hcs Hm) as (_ & Hr' & _). congruence.
Qed.

Lemma go_to_shape_witness :
  exists r angle used,
    Ai.go_to (SimState.add_player SimState.init 1 "hi") 1 (Int 3) (Int 4)
      10 [9; 11] = Ok r
    /\ [9; 11] = used ++ Ai.unread r
    /\ length used = length (Ai.calls r)
    /\ Forall (fun c => Ai.c_pid c = 1%Z /\ Ai.c_angle c = Flt angle)
         (Ai.calls r)
    /\ (forall cs c cs',
          Ai.calls r = cs ++ c :: cs' -> Ai.c_moving c = false ->
          cs' = [] /\ Ai.returned r = true
          /\ Ai.c_x c = Int 3 /\ Ai.c_y c = Int 4)
    /\ (Ai.returned r = false ->
        Ai.unread r = []
        /\ Forall (fun c => Ai.c_moving c = true) (Ai.calls r))
    /\ (Ai.returned r = true ->
        match last (Ai.calls r) with
        | None => val (Player.x (Player.new 1 "hi")) = val (Int 3)
                  /\ val (Player.y (Player.new 1 "hi")) = val (Int 4)
        | Some c => val (Ai.c_x c) = val (Int 3)
                    /\ val (Ai.c_y c) = val (Int 4)
        end).
Proof.
  apply (go_to_shape (SimState.add_player SimState.init 1 "hi") 1
           (Player.new 1 "hi") (Int 3) (Int 4) 10 [9; 11]).
  reflexivity.
Defined.

(** [int(x)] depends on the value of [x] only. *)
Lemma py_int_val (a b : num) : val a = val b -> py_int a = py_int b.
Proof.
  assert (Ht : forall z, trunc (IZR z) = z).
  { intros z. apply trunc_unique.
    destruct (Rle_dec 0 (IZR z)); [left|right]; lra. }
  destruct a as [z|r], b as [z'|r']; simpl; intros H.
  - by apply eq_IZR.
  - by rewrite <- H, Ht.
  - by rewrite H, Ht.
  - by rewrite H.
Qed.

Lemma go_to_loop_frame (pid : Z) (bx by_ : num) (dx dy angle : R)
    (ticks : list R) :
  forall (s : SimState.t) (x y : num) (t2 : R),
    SimState.enemies
      (Ai.final (Ai.go_to_loop s pid bx by_ dx dy angle x y t2 ticks))
    = SimState.enemies s
    /\ SimState.abilities
         (Ai.final (Ai.go_to_loop s pid bx by_ dx dy angle x y t2 ticks))
       = SimState.abilities s
    /\ SimState.pause_time
         (Ai.final (Ai.go_to_loop s pid bx by_ dx dy angle x y t2 ticks))
       = SimState.pause_time s
    /\ SimState.server_offset
         (Ai.final (Ai.go_to_loop s pid bx by_ dx dy angle x y t2 ticks))
       = SimState.server_offset s
    /\ SimState.pause_offset
         (Ai.final (Ai.go_to_loop s pid bx by_ dx dy angle x y t2 ticks))
       = SimState.pause_offset s
    /\ (forall k, k <> pid ->
          SimState.players
            (Ai.final (Ai.go_to_loop s pid bx by_ dx dy angle x y t2 ticks))
          !! k = SimState.players s !! k)
    /\ SimState.players
         (Ai.final (Ai.go_to_loop s pid bx by_ dx dy angle x y t2 ticks))
       !! pid =
       match SimState.players s !! pid with
       | None => None
       | Some p =>
           match last (Ai.calls
                         (Ai.go_to_loop s pid bx by_ dx dy angle x y t2 ticks))
           with
           | None => Some p
           | Some c =>
               Some (Player.mk (Player.id p) (Player.name p)
                       (Int (py_int (Ai.c_x c))) (Int (py_int (Ai.c_y c)))
                       (Ai.c_angle c) (Ai.c_moving c) (Player.buffs p))
           end
       end.
Proof.
  induction ticks as [|now ticks IH]; intros s x y t2.
  - destruct (Ai.arrived x y bx by_) eqn:Ha.
    + rewrite go_to_loop_arrived by done. simpl.
      repeat (split; [done|]). by destruct (SimState.players s !! pid).
    + rewrite go_to_loop_suspended by done. simpl.
      repeat (split; [done|]). by destruct (SimState.players s !! pid).
  - destruct (Ai.arrived x y bx by_) eqn:Ha.
    + rewrite go_to_loop_arrived by done. simpl.
      repeat (split; [done|]). by destruct (SimState.players s !! pid).
    + rewrite go_to_loop_tick by done.
      destruct (Ai.advance bx by_ dx dy x y t2 (SimState.time s now))
        as [[x' y'] m] eqn:Hadv.
      cbv zeta.
      set (s' := SimState.update_player s pid x' y' (Flt angle) m).
      destruct (IH s' x' y' (SimState.time s now))
        as (He & Ha' & Hp & Hso & Hpo & Hk & Hpid).
      set (r := Ai.go_to_loop s' pid bx by_ dx dy angle x' y'
                  (SimState.time s now) ticks) in *.
      simpl.
      assert (Hs' : SimState.enemies s' = SimState.enemies s
                    /\ SimState.abilities s' = SimState.abilities s
                    /\ SimState.pause_time s' = SimState.pause_time s
                    /\ SimState.server_offset s' = SimState.server_offset s
                    /\ SimState.pause_offset s' = SimState.pause_offset s
                    /\ (forall k, k <> pid ->
                          SimState.players s' !! k = SimState.players s !! k)
                    /\ SimState.players s' !! pid =
                       match SimState.players s !! pid with
                       | None => None
                       | Some p =>
                           Some (Player.mk (Player.id p) (Player.name p)
                                   (Int (py_int x')) (Int (py_int y'))
                                   (Flt angle) m (Player.buffs p))
                       end).
      { subst s'. unfold SimState.update_player.
        destruct (SimState.players s !! pid) as [p|] eqn:Hl; simpl.
        - repeat (split; [done|]). split.
          + intros k Hne. by rewrite lookup_insert_ne.
          + by rewrite lookup_insert_eq.
        - repeat (split; [done|]). done. }
      destruct Hs' as (He' & Ha'' & Hp' & Hso' & Hpo' & Hk' & Hpid').
      split; [congruence|]. split; [congruence|]. split; [congruence|].
      split; [congruence|]. split; [congruence|]. split.
      * intros k Hne. rewrite Hk by done. by apply Hk'.
      * rewrite Hpid, Hpid', last_cons.
        destruct (SimState.players s !! pid) as [p|]; [|done].
        by destruct (last (Ai.calls r)).
Qed.

(** X12. Taken in exact arithmetic, where the direction can always be
    computed: [go_to] touches nothing but the actor's own record: enemies,
    abilities, the clock and every other player are as before, and the actor
    keeps its id, name and buffs.  When it made no call the actor is as
    before; otherwise the actor holds what the last call carried, with the
    coordinates passed through [int]; so once [go_to] has returned after a
    call, the registry holds [int(bx), int(by)]. *)
Theorem go_to_frame (s : SimState.t) (pid : Z) (me : Player.t)
    (bx by_ : num) (now0 : R) (ticks : list R) :
  SimState.players s !! pid = Some me ->
  exists r me',
    Ai.go_to s pid bx by_ now0 ticks = Ok r
    /\ SimState.enemies (Ai.final r) = SimState.enemies s
    /\ SimState.abilities (Ai.final r) = SimState.abilities s
    /\ SimState.pause_time (Ai.final r) = SimState.pause_time s
    /\ (forall now, SimState.time (Ai.final r) now = SimState.time s now)
    /\ (forall k, k <> pid ->
          SimState.players (Ai.final r) !! k = SimState.players s !! k)
    /\ SimState.players (Ai.final r) !! pid = Some me'
    /\ Player.id me' = Player.id me
    /\ Player.name me' = Player.name me
    /\ Player.buffs me' = Player.buffs me
    /\ match last (Ai.calls r) with
       | None => me' = me
       | Some c =>
           Player.x me' = Int (py_int (Ai.c_x c))
           /\ Player.y me' = Int (py_int (Ai.c_y c))
           /\ Player.angle me' = Ai.c_angle c
           /\ Player.moving me' = Ai.c_moving c
           /\ (Ai.returned r = true ->
               Player.x me' = Int (py_int bx)
               /\ Player.y me' = Int (py_int by_))
       end.
Proof.
  intros Hme.
  destruct (Ai.arrived (Player.x me) (Player.y me) bx by_) eqn:Ha.
  - exists (Ai.mk_run s [] true ticks), me.
    unfold Ai.go_to. rewrite Hme, Ha. simpl. by repeat (split; [done|]).
  - destruct (go_to_enters_loop s pid me bx by_ now0 ticks Hme Ha)
      as (dx & dy & _ & _ & _ & Hgo).
    destruct (go_to_loop_frame pid bx by_ dx dy (atan2 dy dx) ticks s
                (Player.x me) (Player.y me) (SimState.time s now0))
      as (He & Hab & Hp & Hso & Hpo & Hk & Hpid).
    destruct (go_to_loop_shape pid bx by_ dx dy (atan2 dy dx) ticks s
                (Player.x me) (Player.y me) (SimState.time s now0))
      as (_ & _ & _ & _ & Hret).
    set (r := Ai.go_to_loop s pid bx by_ dx dy (atan2 dy dx)
                (Player.x me) (Player.y me) (SimState.time s now0) ticks) in *.
    rewrite Hme in Hpid.
    destruct (last (Ai.calls r)) as [c|] eqn:Hlast.
    + eexists r, _. split; [exact Hgo|]. split; [exact He|].
      split; [exact Hab|]. split; [exact Hp|]. split.
      { intros now. unfold SimState.time. by rewrite Hp, Hso, Hpo. }
      split; [exact Hk|]. split; [exact Hpid|]. rewrite Hlast. simpl.
      do 7 (split; [done|]). intros Hr. destruct (Hret Hr) as [Hx Hy].
      by rewrite (py_int_val _ _ Hx), (py_int_val _ _ Hy).
    + exists r, me. split; [exact Hgo|]. split; [exact He|].
      split; [exact Hab|]. split; [exact Hp|]. split.
      { intros now. unfold SimState.time. by rewrite Hp, Hso, Hpo. }
      split; [exact Hk|]. split; [exact Hpid|]. by rewrite Hlast.
Qed.

Lemma go_to_frame_witness :
  exists r me',
    Ai.go_to (SimState.add_player SimState.init 1 "hi") 1
      (Flt (7 / 2)) (Int 4) 10 [11] = Ok r
    /\ SimState.enemies (Ai.final r)
       = SimState.enemies (SimState.add_player SimState.init 1 "hi")
    /\ SimState.abilities (Ai.final r)
       = SimState.abilities (SimState.add_player SimState.init 1 "hi")
    /\ SimState.pause_time (Ai.final r)
       = SimState.pause_time (SimState.add_player SimState.init 1 "hi")
    /\ (forall now,
          SimState.time (Ai.final r) now
          = SimState.time (SimState.add_player SimState.init 1 "hi") now)
    /\ (forall k, k <> 1%Z ->
          SimState.players (Ai.final r) !! k
          = SimState.players (SimState.add_player SimState.init 1 "hi") !! k)
    /\ SimState.players (Ai.final r) !! 1%Z = Some me'
    /\ Player.id me' = Player.id (Player.new 1 "hi")
    /\ Player.name me' = Player.name (Player.new 1 "hi")
    /\ Player.buffs me' = Player.buffs (Player.new 1 "hi")
    /\ match last (Ai.calls r) with
       | None => me' = Player.new 1 "hi"
       | Some c =>
           Player.x me' = Int (py_int (Ai.c_x c))
           /\ Player.y me' = Int (py_int (Ai.c_y c))
           /\ Player.angle me' = Ai.c_angle c
           /\ Player.moving me' = Ai.c_moving c
           /\ (Ai.returned r = true ->
               Player.x me' = Int (py_int (Flt (7 / 2)))
               /\ Player.y me' = Int (py_int (Int 4)))
       end.
Proof.
  apply (go_to_frame (SimState.add_player SimState.init 1 "hi") 1
           (Player.new 1 "hi") (Flt (7 / 2)) (Int 4) 10 [11]).
  reflexivity.
Defined.

(** ** Waiting on the clock *)




(** ** Abilities seen by the behaviour routine *)

(** X15. On a registry reached from [SimState()] by calls in which the
    wall clock did not go back between the two readings of [add_ability],
    [is_ability_casting] returns normally and the collection it starts with
    never changes its answer: the answer is the one the registry gives
    before the collection, since an ability is collected only a full unit
    after its cast ended. *)
Theorem is_ability_casting_answer (h : list (R * op)) (s : SimState.t)
    (nm : string) (now : R) :
  apply_all SimState.init h = Ok s ->
  history_forward h ->
  exists s',
    SimState.gc_abilities s now = Ok s'
    /\ Strategy.is_ability_casting s nm now
       = Ok (s', Strategy.casting s nm now).
Proof.
  intros Hh Hf.
  destruct (reachable_keyed_spaced h SimState.init s Hf init_keyed_spaced Hh)
    as (Hk & Hsp).
  destruct (gc_abilities_lookup s now Hk) as (m & Hgc & Hm).
  eexists. split; [exact Hgc|].
  unfold Strategy.is_ability_casting. rewrite Hgc. simpl. do 2 f_equal.
  unfold Strategy.casting. simpl.
  change (SimState.time (SimState.mk (SimState.players s) (SimState.enemies s)
            m (SimState.pause_time s) (SimState.server_offset s)
            (SimState.pause_offset s)) now)
    with (SimState.time s now).
  apply bool_decide_ext. split.
  - intros (k & a & Hka & Hn & Hc). exists k, a. split; [|done].
    rewrite Hm in Hka. destruct (SimState.abilities s !! k) as [a'|]; [|done].
    by case_decide; simplify_eq.
  - intros (k & a & Hka & Hn & Hc). exists k, a. split; [|done].
    rewrite Hm, Hka. case_decide as Hd; [|done].
    specialize (Hsp k a Hka). simpl in Hsp. lra.
Qed.

Lemma is_ability_casting_answer_witness :
  exists s',
    SimState.gc_abilities
      (SimState.add_ability SimState.init 7 "Gnash" 2 100 100) 104 = Ok s'
    /\ Strategy.is_ability_casting
         (SimState.add_ability SimState.init 7 "Gnash" 2 100 100) "Gnash" 104
       = Ok (s', Strategy.casting
                   (SimState.add_ability SimState.init 7 "Gnash" 2 100 100)
                   "Gnash" 104).
Proof.
  apply (is_ability_casting_answer [(100, AddAbility 7 "Gnash" 2 100)]).
  - reflexivity.
  - constructor; [simpl; lra|constructor].
Defined.

Lemma named_after_gc (s : SimState.t) (aid : Z) (nm : string)
    (d now later now0 : R) :
  abilities_keyed s ->
  map_Forall (fun _ a => Ability.name a <> nm) (SimState.abilities s) ->
  exists m,
    SimState.gc_abilities (SimState.add_ability s aid nm d now later) now0
    = Ok (SimState.mk (SimState.players s) (SimState.enemies s) m
            (SimState.pause_time s) (SimState.server_offset s)
            (SimState.pause_offset s))
    /\ (forall k a, m !! k = Some a -> Ability.name a = nm ->
          a = Ability.mk aid nm (SimState.time s now + d)
                (SimState.time s later + d + 1)
          /\ SimState.time s now0 <= SimState.time s later + d + 1)
    /\ m !! aid =
       if decide (SimState.time s later + d + 1 < SimState.time s now0)
       then None
       else Some (Ability.mk aid nm (SimState.time s now + d)
                    (SimState.time s later + d + 1)).
Proof.
  intros Hk Hn.
  assert (Hk' : abilities_keyed (SimState.add_ability s aid nm d now later)).
  { unfold abilities_keyed; simpl. by apply map_Forall_insert_2. }
  destruct (gc_abilities_lookup _ now0 Hk') as (m & Hgc & Hm).
  exists m. split; [exact Hgc|]. split.
  - intros k a Hka Hna. rewrite Hm in Hka. simpl in Hka.
    destruct (decide (k = aid)) as [->|Hne].
    + rewrite lookup_insert_eq in Hka. simpl in Hka.
      rewrite time_add_ability in Hka. case_decide; simplify_eq.
      split; [done|lra].
    + rewrite lookup_insert_ne in Hka by done.
      destruct (SimState.abilities s !! k) as [a'|] eqn:Ha'; [|done].
      case_decide; simplify_eq. by destruct (Hn k a Ha').
  - rewrite Hm. simpl. rewrite lookup_insert_eq. simpl.
    by rewrite time_add_ability.
Qed.



Lemma until_ability_triggers_loop_idle (nm : string) (ticks : list Strategy.tick) :
  forall cur : Strategy.tick,
    Forall (fun tk =>
              map_Forall (fun _ a => Ability.name a <> nm)
                (SimState.abilities (fst tk))) (cur :: ticks) ->
    Strategy.until_ability_triggers_loop nm cur ticks
    = Strategy.mk_wait false [].
Proof.
  induction ticks as [|tk ticks IH]; intros cur Hall;
    apply Forall_cons in Hall as [Hc Hall]; simpl.
  - unfold Strategy.triggered. rewrite bool_decide_eq_false_2; [done|].
    intros (k & a & Hka & Hna & _). by destruct (Hc k a Hka).
  - unfold Strategy.triggered. rewrite bool_decide_eq_false_2; [by apply IH|].
    intros (k & a & Hka & Hna & _). by destruct (Hc k a Hka).
Qed.

(** X17. [until_ability_triggers] sees the end of a cast only until the
    ability is collected.  With no other ability of that name in the
    registry, for an ability added with duration [d] when [time()] reads [t]
    at the first call of [add_ability] and [t'] at the second: entered at a
    reading after [t + d] and up to [t' + d + 1] the wait returns at once,
    consuming no tick; entered at a reading after [t' + d + 1] it collects
    the ability and, as long as no ability of that name is registered
    afresh, never returns. *)
Theorem ability_seen_triggered (s : SimState.t) (aid : Z) (nm : string)
    (d now later now0 : R) (ticks : list Strategy.tick) :
  abilities_keyed s ->
  map_Forall (fun _ a => Ability.name a <> nm) (SimState.abilities s) ->
  exists s',
    SimState.gc_abilities (SimState.add_ability s aid nm d now later) now0
    = Ok s'
    /\ Strategy.until_ability_triggers
         (SimState.add_ability s aid nm d now later) nm now0 ticks
       = Ok (s', Strategy.until_ability_triggers_loop nm (s', now0) ticks)
    /\ Strategy.triggered s' nm now0
       = bool_decide (SimState.time s now + d < SimState.time s now0
                      /\ SimState.time s now0
                         <= SimState.time s later + d + 1)
    /\ (SimState.time s now + d < SimState.time s now0 ->
        SimState.time s now0 <= SimState.time s later + d + 1 ->
        Strategy.until_ability_triggers
          (SimState.add_ability s aid nm d now later) nm now0 ticks
        = Ok (s', Strategy.mk_wait true ticks))
    /\ (SimState.time s later + d + 1 < SimState.time s now0 ->
        SimState.abilities s' !! aid = None
        /\ (Forall (fun tk =>
                      map_Forall (fun _ a => Ability.name a <> nm)
                        (SimState.abilities (fst tk))) ticks ->
            Strategy.until_ability_triggers
              (SimState.add_ability s aid nm d now later) nm now0 ticks
            = Ok (s', Strategy.mk_wait false []))).
Proof.
  intros Hk Hn.
  destruct (named_after_gc s aid nm d now later now0 Hk Hn)
    as (m & Hgc & Hnm & Ha).
  set (s' := SimState.mk (SimState.players s) (SimState.enemies s) m
               (SimState.pause_time s) (SimState.server_offset s)
               (SimState.pause_offset s)) in *.
  assert (Htr : Strategy.triggered s' nm now0
                = bool_decide (SimState.time s now + d < SimState.time s now0
                               /\ SimState.time s now0
                                  <= SimState.time s later + d + 1)).
  { unfold Strategy.triggered.
    change (SimState.time s' now0) with (SimState.time s now0). simpl.
    apply bool_decide_ext. split.
    - intros (k & a & Hka & Hna & Hc).
      destruct (Hnm k a Hka Hna) as [-> Hle]. simpl in Hc. by split.
    - intros [Hlt Hle].
      exists aid, (Ability.mk aid nm (SimState.time s now + d)
                     (SimState.time s later + d + 1)).
      split; [|split; [done|exact Hlt]].
      rewrite Ha. apply decide_False. lra. }
  assert (Hgo : Strategy.until_ability_triggers
                  (SimState.add_ability s aid nm d now later) nm now0 ticks
                = Ok (s', Strategy.until_ability_triggers_loop nm (s', now0)
                            ticks)).
  { unfold Strategy.until_ability_triggers. by rewrite Hgc. }
  exists s'. split; [exact Hgc|]. split; [exact Hgo|]. split; [exact Htr|].
  split.
  - intros Hlt Hle. rewrite Hgo. do 2 f_equal.
    assert (Ht : Strategy.triggered s' nm now0 = true).
    { rewrite Htr. by apply bool_decide_eq_true_2. }
    destruct ticks; simpl; by rewrite Ht.
  - intros Hlate. split.
    + simpl. rewrite Ha. by apply decide_True.
    + intros Hall. rewrite Hgo. do 2 f_equal.
      apply until_ability_triggers_loop_idle. constructor; [|done].
      simpl. intros k a Hka Hna. destruct (Hnm k a Hka Hna) as [_ Hle]. lra.
Qed.

Lemma ability_seen_triggered_witness :
  exists s',
    SimState.gc_abilities
      (SimState.add_ability SimState.init 7 "Gnash" 2 100 (1001 / 10)) 104
    = Ok s'
    /\ Strategy.until_ability_triggers
         (SimState.add_ability SimState.init 7 "Gnash" 2 100 (1001 / 10))
         "Gnash" 104 [(SimState.init, 105)]
       = Ok (s', Strategy.until_ability_triggers_loop "Gnash" (s', 104)
                   [(SimState.init, 105)])
    /\ Strategy.triggered s' "Gnash" 104
       = bool_decide (SimState.time SimState.init 100 + 2
                      < SimState.time SimState.init 104
                      /\ SimState.time SimState.init 104
                         <= SimState.time SimState.init (1001 / 10) + 2 + 1)
    /\ (SimState.time SimState.init 100 + 2 < SimState.time SimState.init 104 ->
        SimState.time SimState.init 104
        <= SimState.time SimState.init (1001 / 10) + 2 + 1 ->
        Strategy.until_ability_triggers
          (SimState.add_ability SimState.init 7 "Gnash" 2 100 (1001 / 10))
          "Gnash" 104 [(SimState.init, 105)]
        = Ok (s', Strategy.mk_wait true [(SimState.init, 105)]))
    /\ (SimState.time SimState.init (1001 / 10) + 2 + 1
        < SimState.time SimState.init 104 ->
        SimState.abilities s' !! 7%Z = None
        /\ (Forall (fun tk =>
                      map_Forall (fun _ a => Ability.name a <> "Gnash")
                        (SimState.abilities (fst tk)))
              [(SimState.init, 105)] ->
            Strategy.until_ability_triggers
              (SimState.add_ability SimState.init 7 "Gnash" 2 100 (1001 / 10))
              "Gnash" 104 [(SimState.init, 105)]
            = Ok (s', Strategy.mk_wait false []))).
Proof.
  apply (ability_seen_triggered SimState.init 7 "Gnash" 2 100 (1001 / 10) 104
           [(SimState.init, 105)]);
    apply map_Forall_empty.
Defined.

(** ** Points on the circle *)

Lemma py_round_spec (r : R) :
  Rabs (IZR (py_round r) - r) <= 1 / 2
  /\ (Rabs (IZR (py_round r) - r) = 1 / 2 -> Z.even (py_round r) = true).
Proof.
  unfold py_round. cbv zeta.
  destruct (base_Int_part r) as [Hlo Hhi].
  set (f := Int_part r) in *.
  assert (Hf1 : IZR (f + 1) = IZR f + 1) by (rewrite plus_IZR; lra).
  case_decide as H1.
  - split.
    + apply Rabs_le. lra.
    + intros Habs. rewrite Rabs_left1 in Habs by lra. lra.
  - case_decide as H2.
    + rewrite Hf1. split.
      * apply Rabs_le. lra.
      * intros Habs. rewrite Rabs_right in Habs by lra. lra.
    + destruct (Z.even f) eqn:He.
      * split; [apply Rabs_le; lra|done].
      * rewrite Hf1. split; [apply Rabs_le; lra|]. intros _.
        rewrite Z.even_add, He. reflexivity.
Qed.

Lemma py_round_unique (r : R) (z : Z) :
  Rabs (IZR z - r) <= 1 / 2 ->
  (Rabs (IZR z - r) = 1 / 2 -> Z.even z = true) ->
  py_round r = z.
Proof.
  intros Hz Hze. destruct (py_round_spec r) as [Hp Hpe].
  set (p := py_round r) in *.
  assert (Hinv : forall x b, Rabs x <= b -> - b <= x <= b).
  { intros x b Hx. unfold Rabs in Hx. destruct (Rcase_abs x); lra. }
  apply Hinv in Hz. apply Hinv in Hp.
  assert (Hd : (-1 <= z - p <= 1)%Z).
  { split; apply le_IZR; rewrite minus_IZR; simpl; lra. }
  destruct (decide (z = p)) as [->|Hne]; [done|].
  assert (Hcase : (z = p + 1 \/ z = p - 1)%Z) by lia.
  destruct Hcase as [-> | ->].
  - rewrite plus_IZR in Hz, Hze. simpl in Hz, Hze.
    assert (Hr : r = IZR p + 1 / 2) by lra.
    assert (E1 : Z.even (p + 1) = true).
    { apply Hze. rewrite Hr, Rabs_right; lra. }
    assert (E2 : Z.even p = true).
    { apply Hpe. rewrite Hr, Rabs_left; lra. }
    rewrite Z.even_add, E2 in E1. discriminate.
  - rewrite minus_IZR in Hz, Hze. simpl in Hz, Hze.
    assert (Hr : r = IZR p - 1 / 2) by lra.
    assert (E1 : Z.even (p - 1) = true).
    { apply Hze. rewrite Hr, Rabs_left; lra. }
    assert (E2 : Z.even p = true).
    { apply Hpe. rewrite Hr, Rabs_right; lra. }
    rewrite Z.even_sub, E2 in E1. discriminate.
Qed.

Lemma py_round_opp (r : R) : py_round (- r) = (- py_round r)%Z.
Proof.
  destruct (py_round_spec r) as [Hp Hpe].
  assert (E : IZR (- py_round r) - - r = - (IZR (py_round r) - r)).
  { rewrite opp_IZR. lra. }
  apply py_round_unique.
  - by rewrite E, Rabs_Ropp.
  - rewrite E, Rabs_Ropp, Z.even_opp. exact Hpe.
Qed.


(** X18. In exact arithmetic the points the routine places around the
    adversary are turns and mirror images of one another, as integers: the
    offsets at [a + pi/2] and at [a - pi/2] are the offset at [a] turned by
    a quarter either way, so they are opposite; the offset at [-a] is the
    one at [a] mirrored in the first axis. *)
Theorem circle_turns (r a : R) :
  xcircle r (a + PI / 2) = (- ycircle r a)%Z
  /\ ycircle r (a + PI / 2) = xcircle r a
  /\ xcircle r (a - PI / 2) = ycircle r a
  /\ ycircle r (a - PI / 2) = (- xcircle r a)%Z
  /\ xcircle r (- a) = xcircle r a
  /\ ycircle r (- a) = (- ycircle r a)%Z.
Proof.
  unfold xcircle, ycircle.
  assert (C1 : cos (a + PI / 2) = - sin a).
  { rewrite cos_plus, cos_PI2, sin_PI2. lra. }
  assert (S1 : sin (a + PI / 2) = cos a).
  { rewrite sin_plus, cos_PI2, sin_PI2. lra. }
  assert (C2 : cos (a - PI / 2) = sin a).
  { rewrite cos_minus, cos_PI2, sin_PI2. lra. }
  assert (S2 : sin (a - PI / 2) = - cos a).
  { rewrite sin_minus, cos_PI2, sin_PI2. lra. }
  rewrite C1, S1, C2, S2, cos_neg, sin_neg.
  replace (r * - sin a) with (- (r * sin a)) by lra.
  replace (r * - cos a) with (- (r * cos a)) by lra.
  rewrite !py_round_opp. done.
Qed.


(** ** The shuffle and the targets of [gnash_lash] *)

Section ShufflePermutes.
Variable rng_shuffle : Z -> list Z -> list Z.
Hypothesis rng_permutes : forall seed l, rng_shuffle seed l ≡ₚ l.

(** X20. With a generator whose [shuffle] rearranges the list it is given,
    [consistent_shuffle] rearranges the ids: the list holds the same ids
    afterwards, each as many times as before, so every player of the group
    has a slot in it and two players never share one. *)
Theorem consistent_shuffle_permutes (pids : list Z) :
  Ai.consistent_shuffle rng_shuffle pids ≡ₚ pids
  /\ length (Ai.consistent_shuffle rng_shuffle pids) = length pids
  /\ (forall p, p ∈ Ai.consistent_shuffle rng_shuffle pids <-> p ∈ pids)
  /\ (NoDup pids -> NoDup (Ai.consistent_shuffle rng_shuffle pids)).
Proof.
  assert (Hp : Ai.consistent_shuffle rng_shuffle pids ≡ₚ pids).
  { unfold Ai.consistent_shuffle. cbv zeta.
    rewrite rng_permutes. apply merge_sort_Permutation. }
  split; [exact Hp|]. split; [by rewrite Hp|]. split.
  - intros p. by rewrite Hp.
  - intros Hnd. by rewrite Hp.
Qed.
End ShufflePermutes.

Lemma consistent_shuffle_permutes_witness :
  Ai.consistent_shuffle (fun _ l => reverse l) [2; 3; 1]%Z ≡ₚ [2; 3; 1]%Z
  /\ length (Ai.consistent_shuffle (fun _ l => reverse l) [2; 3; 1]%Z)
     = length [2; 3; 1]%Z
  /\ (forall p,
        p ∈ Ai.consistent_shuffle (fun _ l => reverse l) [2; 3; 1]%Z
        <-> p ∈ [2; 3; 1]%Z)
  /\ (NoDup [2; 3; 1]%Z ->
      NoDup (Ai.consistent_shuffle (fun _ l => reverse l) [2; 3; 1]%Z)).
Proof.
  apply (consistent_shuffle_permutes (fun _ l => reverse l)).
  intros seed l. apply reverse_Permutation.
Defined.


(* ================================================================== *)
(** * Properties of the event loop *)

#[local] Arguments float_bound : simpl never.

Lemma py_float_cases (n : num) :
  (too_large float_bound n /\ py_float n = Raise OverflowError)
  \/ (~ too_large float_bound n /\ py_float n = Ok (val n)).
Proof.
  destruct n as [z|r]; simpl; [|right; split; [by intros []|done]].
  case_decide; [right|left]; (split; [lia|done]).
Qed.

Lemma div_1000_cases (n : num) :
  (too_large (1000 * float_bound) n /\ div_1000 n = Raise OverflowError)
  \/ (~ too_large (1000 * float_bound) n /\ div_1000 n = Ok (val n / 1000)).
Proof.
  destruct n as [z|r]; simpl; [|right; split; [by intros []|done]].
  case_decide; [right|left]; (split; [lia|done]).
Qed.

Lemma py_atan2_cases (y x : num) :
  ((too_large float_bound y \/ too_large float_bound x)
   /\ py_atan2 y x = Raise OverflowError)
  \/ (~ too_large float_bound y /\ ~ too_large float_bound x
      /\ py_atan2 y x = Ok (atan2 (val y) (val x))).
Proof.
  unfold py_atan2.
  destruct (py_float_cases y) as [[Hy ->]|[Hy ->]]; simpl.
  - left. split; [by left|done].
  - destruct (py_float_cases x) as [[Hx ->]|[Hx ->]]; simpl.
    + left. split; [by right|done].
    + right. by repeat split.
Qed.





Lemma reachable_integral (s : SimState.t) : reachable s -> positions_integral s.
Proof.
  intros [h Hh].
  assert (H : forall s1, positions_integral s1 ->
                apply_all s1 h = Ok s -> positions_integral s).
  { clear Hh. induction h as [|[now o] h IH]; simpl; intros s1 Hi Hall.
    - by simplify_eq.
    - destruct (apply s1 now o) as [s2|] eqn:E; simpl in Hall; [|done].
      eapply IH; [|done]. by eapply apply_keeps_integral. }
  apply (H SimState.init); [apply map_Forall_empty|done].
Qed.



(** X23. Once the payload of an event is read, handling it raises in two
    cases only.  [buffExpired] raises [KeyError], exactly when the player it
    names is not registered or does not hold the buff.  An event whose
    branch turns a number of the payload into a float ([buff] for a
    registered player, [newEnemy], [newEnemyAbility], [gameUnpaused], a
    position update for another id) raises [OverflowError], exactly when
    that number is an [int] too large for a float.  Every other event,
    [buff] for an unknown player included, is handled without an
    exception. *)
Theorem handle_raises (c : XivSimClient.t) (now later : R)
    (e : XivSimClient.event) (x : exn) :
  XivSimClient.handle c now later e = Raise x
  <-> (x = KeyError
       /\ exists p i,
            e = XivSimClient.BuffExpired p i
            /\ (SimState.players (XivSimClient.state c) !! p = None
                \/ exists pl,
                     SimState.players (XivSimClient.state c) !! p = Some pl
                     /\ Player.buffs pl !! i = None))
      \/ (x = OverflowError /\ overflows c e).
Proof.
  split.
  - intros Hh. destruct e; simpl in Hh; try discriminate.
    + destruct (SimState.players (XivSimClient.state c) !! p) eqn:Hp;
        [|discriminate].
      destruct (div_1000_cases d) as [[Hd Hr]|[Hd Hr]]; rewrite Hr in Hh;
        simpl in Hh.
      * injection Hh as <-. right. split; [done|]. simpl. rewrite Hp.
        by split.
      * unfold on_player in Hh. rewrite Hp in Hh. discriminate.
    + left. unfold on_player in Hh.
      destruct (SimState.players (XivSimClient.state c) !! p) as [pl|] eqn:Hp;
        simpl in Hh.
      * unfold Player.remove_buff in Hh.
        destruct (Player.buffs pl !! i) eqn:Hb; simpl in Hh; [discriminate|].
        injection Hh as <-. split; [done|]. exists p, i.
        split; [done|]. right. by exists pl.
      * injection Hh as <-. split; [done|]. exists p, i.
        split; [done|]. by left.
    + destruct (py_atan2_cases k j) as [[Ho Hr]|(_ & _ & Hr)];
        rewrite Hr in Hh; simpl in Hh; [|discriminate].
      injection Hh as <-. by right.
    + destruct (div_1000_cases castTime) as [[Hd Hr]|[Hd Hr]];
        rewrite Hr in Hh; simpl in Hh; [|discriminate].
      injection Hh as <-. by right.
    + destruct (div_1000_cases payload) as [[Hd Hr]|[Hd Hr]];
        rewrite Hr in Hh; simpl in Hh; [|discriminate].
      injection Hh as <-. by right.
    + destruct (XivSimClient.find_strategy m); discriminate.
    + case_bool_decide as Hown; [discriminate|].
      destruct (py_atan2_cases (Int fy) (Int fx)) as [[Ho Hr]|(_ & _ & Hr)];
        rewrite Hr in Hh; simpl in Hh; [|discriminate].
      injection Hh as <-. right. split; [done|]. by split.
  - intros [(-> & p & i & -> & [Hp|(pl & Hp & Hb)])|[-> Ho]].
    + simpl. unfold on_player. by rewrite Hp.
    + simpl. unfold on_player. rewrite Hp. simpl.
      unfold Player.remove_buff. by rewrite Hb.
    + destruct e; simpl in Ho; try done; simpl.
      * destruct Ho as [[pl Hp] Hd]. rewrite Hp.
        by destruct (div_1000_cases d) as [[_ ->]|[Hn _]].
      * by destruct (py_atan2_cases k j) as [[_ ->]|(Hk & Hj & _)];
          [|destruct Ho].
      * by destruct (div_1000_cases castTime) as [[_ ->]|[Hn _]].
      * by destruct (div_1000_cases payload) as [[_ ->]|[Hn _]].
      * destruct Ho as [Hown Ho].
        rewrite bool_decide_eq_false_2 by done.
        by destruct (py_atan2_cases (Int fy) (Int fx))
          as [[_ ->]|(Hk & Hj & _)]; [|destruct Ho].
Qed.

(** X24. The loop ends of itself on one event only: [playerDisconnected]
    for the client's own id.  Every other event handled without an
    exception lets the loop go on; and once that event has come, nothing the
    server sends afterwards has any effect. *)
Theorem loop_ends_on_own_disconnection (c c' : XivSimClient.t) (now later : R)
    (e : XivSimClient.event) (out : list XivSimClient.sent)
    (rest : list (R * R * XivSimClient.event)) :
  (XivSimClient.handle c now later e = Ok (c', out, false)
   <-> exists id,
         e = XivSimClient.PlayerDisconnected id
         /\ XivSimClient.pid c = Some id
         /\ c' = XivSimClient.with_state c
                   (SimState.remove_player (XivSimClient.state c) id)
         /\ out = [])
  /\ (XivSimClient.handle c now later e = Ok (c', out, false) ->
      XivSimClient.mainloop c ((now, later, e) :: rest)
      = XivSimClient.mainloop c [(now, later, e)]).
Proof.
  split.
  - split.
    + intros Hh. destruct e; simpl in Hh; try discriminate.
      * injection Hh as <- <- Hb. exists id. case_bool_decide; [|done].
        by repeat split.
      * destruct (SimState.players (XivSimClient.state c) !! p);
          [|discriminate].
        destruct (div_1000 d); simpl in Hh; [|discriminate].
        destruct (on_player _ _ _); discriminate.
      * destruct (on_player _ _ _); discriminate.
      * destruct (py_atan2 k j); discriminate.
      * destruct (div_1000 castTime); discriminate.
      * destruct (div_1000 payload); discriminate.
      * destruct (XivSimClient.find_strategy m); discriminate.
      * case_bool_decide; [discriminate|].
        destruct (py_atan2 (Int fy) (Int fx)); discriminate.
    + intros (id & -> & Hp & -> & ->). simpl.
      rewrite bool_decide_eq_true_2; done.
  - intros Hh. simpl. by rewrite Hh.
Qed.

Lemma add_named_spec (players : list (Z * option string)) :
  forall s,
    SimState.enemies (XivSimClient.add_named s players) = SimState.enemies s
    /\ SimState.abilities (XivSimClient.add_named s players)
       = SimState.abilities s
    /\ SimState.pause_time (XivSimClient.add_named s players)
       = SimState.pause_time s
    /\ SimState.server_offset (XivSimClient.add_named s players)
       = SimState.server_offset s
    /\ SimState.pause_offset (XivSimClient.add_named s players)
       = SimState.pause_offset s
    /\ forall k,
         ((forall nm, (k, Some nm) ∉ players)
          /\ SimState.players (XivSimClient.add_named s players) !! k
             = SimState.players s !! k)
         \/ exists nm,
              (k, Some nm) ∈ players
              /\ SimState.players (XivSimClient.add_named s players) !! k
                 = Some (Player.new k nm).
Proof.
  unfold XivSimClient.add_named.
  induction players as [|[q o] players IH] using rev_ind; intros s.
  - simpl. do 5 (split; [done|]). intros k. left. split; [|done].
    intros nm. apply not_elem_of_nil.
  - rewrite foldl_app. simpl.
    destruct (IH s) as (He & Ha & Hp & Hso & Hpo & Hk).
    assert (Hin : forall k nm, (k, Some nm) ∈ players ->
                    (k, Some nm) ∈ players ++ [(q, o)]).
    { intros k nm H. apply elem_of_app. by left. }
    destruct o as [nm|]; simpl.
    + do 5 (split; [done|]). intros k.
      destruct (decide (k = q)) as [->|Hne].
      * right. exists nm. split; [|apply lookup_insert_eq].
        apply elem_of_app. right. by apply list_elem_of_singleton.
      * rewrite lookup_insert_ne by done.
        destruct (Hk k) as [[Hn Hl]|(nm' & Hk' & Hl)].
        -- left. split; [|done]. intros nm'. apply not_elem_of_app.
           split; [apply Hn|]. intros H%list_elem_of_singleton. congruence.
        -- right. exists nm'. split; [by apply Hin|done].
    + do 5 (split; [done|]). intros k.
      destruct (Hk k) as [[Hn Hl]|(nm' & Hk' & Hl)].
      * left. split; [|done]. intros nm'. apply not_elem_of_app.
        split; [apply Hn|]. intros H%list_elem_of_singleton. congruence.
      * right. exists nm'. split; [by apply Hin|done].
Qed.

(** X25. After [setId] the client knows its id and is registered under it,
    whether or not the list of the payload names it, so the updates it
    starts sending find it; every player the list gives a name is
    registered, those without a name are passed over.  Each of them starts
    as a fresh record at the origin, whatever the registry held for that id
    before; all other players, the enemies, the abilities and the clock are
    as before. *)
Theorem set_id_registers (c : XivSimClient.t) (now later : R) (id : Z)
    (players : list (Z * option string)) :
  exists c',
    XivSimClient.handle c now later (XivSimClient.SetId id players)
    = Ok (c', [XivSimClient.SetPlayerData id;
               XivSimClient.MapLoaded (Some id);
               XivSimClient.StartPlayerUpdate], true)
    /\ XivSimClient.pid c' = Some id
    /\ (exists nm,
          SimState.players (XivSimClient.state c') !! id
          = Some (Player.new id nm))
    /\ is_Some (XivSimClient.player_update_fields c')
    /\ (forall q nm,
          (q, Some nm) ∈ players ->
          exists nm',
            SimState.players (XivSimClient.state c') !! q
            = Some (Player.new q nm'))
    /\ (forall k,
          k <> id -> (forall nm, (k, Some nm) ∉ players) ->
          SimState.players (XivSimClient.state c') !! k
          = SimState.players (XivSimClient.state c) !! k)
    /\ SimState.enemies (XivSimClient.state c')
       = SimState.enemies (XivSimClient.state c)
    /\ SimState.abilities (XivSimClient.state c')
       = SimState.abilities (XivSimClient.state c)
    /\ (forall now',
          SimState.time (XivSimClient.state c') now'
          = SimState.time (XivSimClient.state c) now').
Proof.
  eexists. split; [reflexivity|]. simpl.
  destruct (add_named_spec players
              (SimState.add_player (XivSimClient.state c) id "hi"))
    as (He & Ha & Hp & Hso & Hpo & Hk).
  assert (Hid : exists nm,
             SimState.players
               (XivSimClient.add_named
                  (SimState.add_player (XivSimClient.state c) id "hi") players)
             !! id = Some (Player.new id nm)).
  { destruct (Hk id) as [[_ Hl]|(nm & _ & Hl)].
    - exists "hi". rewrite Hl. simpl. apply lookup_insert_eq.
    - by exists nm. }
  split; [done|]. split; [exact Hid|]. split.
  { unfold XivSimClient.player_update_fields. simpl.
    destruct Hid as [nm ->]. done. }
  split.
  { intros q nm Hin. destruct (Hk q) as [[Hn _]|(nm' & _ & Hl)].
    - by destruct (Hn nm).
    - by exists nm'. }
  split.
  { intros k Hne Hn. destruct (Hk k) as [[_ Hl]|(nm' & Hin & _)].
    - rewrite Hl. simpl. by rewrite lookup_insert_ne.
    - by destruct (Hn nm'). }
  split; [by rewrite He|]. split; [by rewrite Ha|].
  intros now'. unfold SimState.time. by rewrite Hp, Hso, Hpo.
Qed.

(** X26. A position update for another id raises [OverflowError], exactly
    when a component of its facing vector is an [int] too large for a
    float.  Otherwise it never registers or removes a player and never
    touches the client's own record: an update that carries the client's
    own id, or the id of a player that is not registered, changes nothing;
    any other stores the coordinates as they came, the angle of the facing
    vector and the moving flag, and keeps the id, the name and the buffs of
    that player; and it sends nothing and does not end the loop. *)
Theorem raw_update_effect (c : XivSimClient.t) (now later : R)
    (p x y fx fy : Z) (m : bool) :
  (forall e,
      XivSimClient.handle c now later
        (XivSimClient.RawPlayerUpdate p x y fx fy m) = Raise e
      <-> e = OverflowError
          /\ Some p <> XivSimClient.pid c
          /\ (float_bound <= Z.abs fy \/ float_bound <= Z.abs fx)%Z)
  /\ (Some p = XivSimClient.pid c
      \/ (Z.abs fy < float_bound /\ Z.abs fx < float_bound)%Z ->
      exists c',
        XivSimClient.handle c now later
          (XivSimClient.RawPlayerUpdate p x y fx fy m)
        = Ok (c', [], true)
        /\ XivSimClient.pid c' = XivSimClient.pid c
        /\ (forall k,
              is_Some (SimState.players (XivSimClient.state c') !! k)
              <-> is_Some (SimState.players (XivSimClient.state c) !! k))
        /\ (forall k,
              k <> p \/ Some k = XivSimClient.pid c ->
              SimState.players (XivSimClient.state c') !! k
              = SimState.players (XivSimClient.state c) !! k)
        /\ (SimState.players (XivSimClient.state c) !! p = None
            \/ Some p = XivSimClient.pid c ->
            c' = c)
        /\ (forall pl,
              Some p <> XivSimClient.pid c ->
              SimState.players (XivSimClient.state c) !! p = Some pl ->
              SimState.players (XivSimClient.state c') !! p
              = Some (Player.mk (Player.id pl) (Player.name pl)
                        (Int x) (Int y) (Flt (atan2 (IZR fy) (IZR fx))) m
                        (Player.buffs pl)))).
Proof.
  split.
  - intros e. simpl. case_bool_decide as Hown.
    + split; [discriminate|]. by intros (_ & Hne & _).
    + destruct (py_atan2_cases (Int fy) (Int fx)) as [[Ho ->]|(Hy & Hx & ->)];
        simpl.
      * split; [intros [= <-]; by repeat split|by intros (-> & _)].
      * split; [discriminate|].
        intros (_ & _ & [Ho|Ho]); exfalso; [by apply Hy|by apply Hx].
  - intros Hok. simpl. case_bool_decide as Hown.
    + exists c. split; [done|]. split; [done|]. split; [done|].
      split; [done|]. split; [done|]. intros pl Hne. done.
    + destruct Hok as [Hp|[Hy Hx]]; [done|].
      destruct (py_atan2_cases (Int fy) (Int fx)) as [[Ho _]|(_ & _ & ->)].
      { simpl in Ho. lia. }
      simpl. unfold SimState.update_player.
      destruct (SimState.players (XivSimClient.state c) !! p) as [pl|] eqn:Hp.
      * eexists. split; [reflexivity|]. simpl. split; [done|]. split.
        { intros k. destruct (decide (k = p)) as [->|Hne].
          - rewrite lookup_insert_eq, Hp. split; by eexists.
          - by rewrite lookup_insert_ne. }
        split.
        { intros k [Hne|Hk]; [by rewrite lookup_insert_ne|].
          rewrite lookup_insert_ne; [done|]. intros ->. done. }
        split.
        { intros [Hn|Ho]; done. }
        intros pl' _ Hpl. simplify_eq. by rewrite lookup_insert_eq.
      * exists c. split.
        { unfold XivSimClient.with_state. by destruct c. }
        split; [done|]. split; [done|]. split; [done|]. split; [done|].
        intros pl _ Hpl. done.
Qed.

(** ** A position update on the wire *)

Lemma split_no_sep (sep : ascii) (w : string) :
  contains sep w = false -> split sep w = [w].
Proof.
  induction w as [|a w IH]; simpl; [done|].
  intros H. apply orb_false_iff in H as [Ha Hw].
  rewrite Ha, (IH Hw). done.
Qed.

Lemma split_app_sep (sep : ascii) (w rest : string) :
  contains sep w = false ->
  split sep (w ++ String sep rest)%string = w :: split sep rest.
Proof.
  induction w as [|a w IH]; simpl.
  - intros _. by rewrite Ascii.eqb_refl.
  - intros H. apply orb_false_iff in H as [Ha Hw].
    rewrite Ha, (IH Hw). done.
Qed.

Lemma split_join (sep : ascii) (l : list string) :
  l <> [] -> Forall (fun w => contains sep w = false) l ->
  split sep (join sep l) = l.
Proof.
  induction l as [|w l IH]; [done|]. intros _ Hall.
  apply Forall_cons in Hall as [Hw Hl].
  destruct l as [|w' l]; [by apply split_no_sep|].
  change (join sep (w :: w' :: l))
    with (w ++ String sep (join sep (w' :: l)))%string.
  rewrite split_app_sep by done. f_equal. by apply IH.
Qed.

Lemma decimal_str_int (z : Z) : decimal_int (decimal_str z) = Some z.
Proof.
  unfold decimal_int, decimal_str. rewrite NilEmpty.isi. simpl.
  by rewrite DecimalZ.of_to.
Qed.

Lemma decimal_str_no_bar (z : Z) : contains "|" (decimal_str z) = false.
Proof.
  assert (H : forall d, contains "|" (NilEmpty.string_of_uint d) = false).
  { induction d; simpl; done. }
  unfold decimal_str. destruct (Z.to_int z); simpl; apply H.
Qed.

Lemma trunc_small (r : R) :
  Rabs r <= 10000 -> (Z.abs (trunc r) < float_bound)%Z.
Proof.
  intros Hr.
  assert (Hb : (10000 < float_bound)%Z) by (vm_compute; reflexivity).
  assert (Hr' : -10000 <= r <= 10000).
  { unfold Rabs in Hr. destruct (Rcase_abs r); lra. }
  destruct (trunc_spec r) as [Hpos Hneg].
  assert (Ht : (-10000 <= trunc r <= 10000)%Z).
  { destruct (Rle_dec 0 r) as [H0|H0].
    - specialize (Hpos H0). split; apply le_IZR; lra.
    - assert (H0' : r < 0) by lra. specialize (Hneg H0').
      split; [apply le_IZR; lra|].
      apply Z.lt_succ_r. apply lt_IZR. rewrite succ_IZR. lra. }
  lia.
Qed.

Section RawStrProperties.
Variable py_str : Z -> string.
Variable py_int_of_str : string -> option Z.
Hypothesis int_of_str : forall z, py_int_of_str (py_str z) = Some z.
Hypothesis str_no_bar : forall z, contains "|" (py_str z) = false.
Hypothesis str_zero : py_str 0 = "0".

Lemma read_rawstr_fields (p x y fx fy m u v : Z) :
  read_rawstr py_int_of_str
    (join "|" (py_str <$> [0; p; x; y; fx; fy; m; u; v]%Z))
  = Some (XivSimClient.RawPlayerUpdate p x y fx fy (negb (Z.eqb m 0))).
Proof.
  unfold read_rawstr. rewrite split_join.
  - simpl. rewrite str_zero. rewrite decide_True by done.
    rewrite !int_of_str. done.
  - done.
  - apply Forall_fmap, Forall_forall. intros z _. apply str_no_bar.
Qed.

(** X27. A position update survives the wire.  With [str] writing numerals
    without a bar that [int] reads back, the payload a registered client
    sends is read by a peer as a position update for the sender's id, and a
    peer that knows the sender stores exactly the coordinates the sender
    holds and its moving flag, keeping the id, the name and the buffs it had
    for that player. *)
Theorem player_update_round_trip (c1 c2 : XivSimClient.t) (now later : R)
    (p : Z) (me pl : Player.t) :
  reachable (XivSimClient.state c1) ->
  XivSimClient.pid c1 = Some p ->
  SimState.players (XivSimClient.state c1) !! p = Some me ->
  XivSimClient.pid c2 <> Some p ->
  SimState.players (XivSimClient.state c2) !! p = Some pl ->
  exists payload e c2' pl',
    player_update_payload py_str c1 = Some payload
    /\ read_rawstr py_int_of_str payload = Some e
    /\ XivSimClient.handle c2 now later e = Ok (c2', [], true)
    /\ SimState.players (XivSimClient.state c2') !! p = Some pl'
    /\ Player.x pl' = Player.x me
    /\ Player.y pl' = Player.y me
    /\ Player.moving pl' = Player.moving me
    /\ Player.id pl' = Player.id pl
    /\ Player.name pl' = Player.name pl
    /\ Player.buffs pl' = Player.buffs pl.
Proof.
  intros Hr Hp1 Hme Hp2 Hpl.
  pose proof (reachable_integral _ Hr p me Hme) as [Hx Hy]. simpl in Hx, Hy.
  unfold player_update_payload, XivSimClient.player_update_fields.
  rewrite Hp1, Hme. simpl.
  eexists _, _, _, _. split; [reflexivity|].
  split; [apply read_rawstr_fields|].
  simpl. rewrite bool_decide_eq_false_2 by congruence.
  assert (Hb : forall u, Rabs u <= 1 -> Rabs (10000 * u) <= 10000).
  { intros u Hu. rewrite Rabs_mult, (Rabs_right 10000) by lra. lra. }
  destruct (py_atan2_cases
              (Int (trunc (10000 * sin (val (Player.angle me)))))
              (Int (trunc (10000 * cos (val (Player.angle me))))))
    as [[Ho _]|(_ & _ & ->)].
  { exfalso. simpl in Ho.
    pose proof (trunc_small _
                  (Hb _ (Rabs_le _ _ (SIN_bound (val (Player.angle me)))))).
    pose proof (trunc_small _
                  (Hb _ (Rabs_le _ _ (COS_bound (val (Player.angle me)))))).
    destruct Ho; lia. }
  simpl. split; [reflexivity|]. simpl.
  unfold SimState.update_player. rewrite Hpl. simpl.
  split; [apply lookup_insert_eq|]. simpl.
  split; [by destruct (Player.x me)|]. split; [by destruct (Player.y me)|].
  split; [by destruct (Player.moving me)|]. done.
Qed.
End RawStrProperties.

Lemma player_update_round_trip_witness :
  exists payload e c2' pl',
    player_update_payload decimal_str
      (XivSimClient.mk None (Some 1%Z)
         (SimState.update_player (SimState.add_player SimState.init 1 "hi")
            1 (Int 30) (Flt (-45 / 10)) (Int 0) true)
         None)
    = Some payload
    /\ read_rawstr decimal_int payload = Some e
    /\ XivSimClient.handle
         (XivSimClient.mk None (Some 2%Z)
            (SimState.add_player SimState.init 1 "al") None)
         100 100 e
       = Ok (c2', [], true)
    /\ SimState.players (XivSimClient.state c2') !! 1%Z = Some pl'
    /\ Player.x pl' = Player.x (Player.mk 1 "hi" (Int 30) (Int (-4)) (Int 0)
                                  true ∅)
    /\ Player.y pl' = Player.y (Player.mk 1 "hi" (Int 30) (Int (-4)) (Int 0)
                                  true ∅)
    /\ Player.moving pl'
       = Player.moving (Player.mk 1 "hi" (Int 30) (Int (-4)) (Int 0) true ∅)
    /\ Player.id pl' = Player.id (Player.new 1 "al")
    /\ Player.name pl' = Player.name (Player.new 1 "al")
    /\ Player.buffs pl' = Player.buffs (Player.new 1 "al").
Proof.
  apply (player_update_round_trip decimal_str decimal_int
           decimal_str_int decimal_str_no_bar eq_refl
           (XivSimClient.mk None (Some 1%Z)
              (SimState.update_player (SimState.add_player SimState.init 1 "hi")
                 1 (Int 30) (Flt (-45 / 10)) (Int 0) true)
              None)
           (XivSimClient.mk None (Some 2%Z)
              (SimState.add_player SimState.init 1 "al") None)
           100 100 1
           (Player.mk 1 "hi" (Int 30) (Int (-4)) (Int 0) true ∅)
           (Player.new 1 "al")).
  - exists [(0, AddPlayer 1 "hi");
            (0, UpdatePlayer 1 (Int 30) (Flt (-45 / 10)) (Int 0) true)].
    reflexivity.
  - reflexivity.
  - unfold SimState.update_player. simpl.
    rewrite lookup_insert_eq. simpl. rewrite lookup_insert_eq.
    do 2 f_equal. f_equal. apply trunc_unique. right. lra.
  - simpl. congruence.
  - reflexivity.
Defined.

(* ================================================================== *)
(** * Properties of the stream of events *)

Section StreamProperties.
Context {json : Type}.
Variable decode : string -> option (GeckosClient.decoded json).

Lemma stream_seen_dropped (q : string) (ty : string) (id : string)
    (m : json) (ps2 ps3 : list (option string)) :
  GeckosClient.likely_json q = true ->
  decode q = Some (GeckosClient.Reliable ty id m) ->
  forall seen,
    id ∈ seen ->
    GeckosClient.stream decode seen (ps2 ++ Some q :: ps3)
    = GeckosClient.stream decode seen (ps2 ++ ps3).
Proof.
  intros Hq Hd. induction ps2 as [|[p|] ps2 IH]; intros seen Hin; simpl.
  - rewrite Hq, Hd. by rewrite decide_True.
  - destruct (GeckosClient.likely_json p); [|by rewrite IH].
    destruct (decode p) as [[ty' pl|ty' id' m'|ty' id'|e]|];
      [by rewrite IH| | |done|by rewrite IH].
    + case_decide; [by rewrite IH|]. rewrite IH; [done|].
      apply elem_of_union. by right.
    + case_decide; [by rewrite IH|done].
  - done.
Qed.

(** X28. [stream] never delivers a reliable event twice: once a packet with
    some [ID] has come, in this run of the stream or in an earlier one, a
    later packet with the same [ID] is dropped, whatever its type and
    message, and the stream goes on as if it had not come. *)
Theorem stream_never_twice (q : string) (ty : string) (id : string) (m : json)
    (seen : gset string) (ps1 ps2 ps3 : list (option string))
    (p : string) (ty0 : string) (m0 : json) :
  GeckosClient.likely_json q = true ->
  decode q = Some (GeckosClient.Reliable ty id m) ->
  (id ∈ seen ->
   GeckosClient.stream decode seen (ps2 ++ Some q :: ps3)
   = GeckosClient.stream decode seen (ps2 ++ ps3))
  /\ (GeckosClient.likely_json p = true ->
      decode p = Some (GeckosClient.Reliable ty0 id m0) ->
      GeckosClient.stream decode seen
        (ps1 ++ Some p :: ps2 ++ Some q :: ps3)
      = GeckosClient.stream decode seen (ps1 ++ Some p :: ps2 ++ ps3)).
Proof.
  intros Hq Hd. split; [by apply (stream_seen_dropped q ty id m)|].
  intros Hp Hdp. revert seen.
  induction ps1 as [|[p1|] ps1 IH]; intros seen; simpl.
  - rewrite Hp, Hdp. case_decide as Hin.
    + by apply (stream_seen_dropped q ty id m).
    + rewrite (stream_seen_dropped q ty id m ps2 ps3 Hq Hd); [done|].
      apply elem_of_union. left. by apply elem_of_singleton.
  - destruct (GeckosClient.likely_json p1); [|by rewrite IH].
    destruct (decode p1) as [[ty' pl|ty' id' m'|ty' id'|e]|];
      [by rewrite IH| | |done|by rewrite IH].
    + case_decide; by rewrite IH.
    + case_decide; [by rewrite IH|done].
  - done.
Qed.

Lemma stream_ended (ps rest : list (option string)) :
  forall seen,
    GeckosClient.ended (GeckosClient.stream decode seen ps)
    <> GeckosClient.Suspended ->
    GeckosClient.stream decode seen (ps ++ rest)
    = GeckosClient.stream decode seen ps.
Proof.
  induction ps as [|[p|] ps IH]; intros seen Hend; simpl in *.
  - done.
  - destruct (GeckosClient.likely_json p); [|by rewrite IH].
    destruct (decode p) as [[ty' pl|ty' id' m'|ty' id'|e]|];
      [by rewrite IH| | |done|by rewrite IH].
    + case_decide; by rewrite IH.
    + case_decide; [by rewrite IH|done].
  - done.
Qed.

Lemma stream_suspended (ps rest : list (option string)) :
  forall seen,
    GeckosClient.ended (GeckosClient.stream decode seen ps)
    = GeckosClient.Suspended ->
    GeckosClient.stream decode seen (ps ++ None :: rest)
    = GeckosClient.mk_run
        (GeckosClient.events (GeckosClient.stream decode seen ps))
        (GeckosClient.reliable_seen (GeckosClient.stream decode seen ps))
        GeckosClient.Returned.
Proof.
  induction ps as [|[p|] ps IH]; intros seen Hend; simpl in *.
  - done.
  - destruct (GeckosClient.likely_json p); [|by rewrite IH].
    destruct (decode p) as [[ty' pl|ty' id' m'|ty' id'|e]|];
      [by rewrite IH| | |done|by rewrite IH].
    + case_decide; by rewrite IH.
    + case_decide; [by rewrite IH|done].
  - done.
Qed.

Lemma stream_grows (ps : list (option string)) :
  forall seen,
    seen ⊆ GeckosClient.reliable_seen (GeckosClient.stream decode seen ps)
    /\ (length (GeckosClient.events (GeckosClient.stream decode seen ps))
        <= length ps)%nat.
Proof.
  induction ps as [|[p|] ps IH]; intros seen; simpl.
  - split; [done|lia].
  - assert (Hy : forall e seen',
               seen ⊆ seen' ->
               seen ⊆ GeckosClient.reliable_seen
                        (GeckosClient.yield e
                           (GeckosClient.stream decode seen' ps))
               /\ (length
                     (GeckosClient.events
                        (GeckosClient.yield e
                           (GeckosClient.stream decode seen' ps)))
                   <= S (length ps))%nat).
    { intros e seen' Hsub. destruct (IH seen') as (Hs & Hl).
      simpl. split; [by etrans|lia]. }
    destruct (GeckosClient.likely_json p); [|by apply Hy].
    destruct (decode p) as [[ty' pl|ty' id' m'|ty' id'|e]|];
      [by apply Hy| | | |by apply Hy].
    + case_decide; [|apply Hy; apply union_subseteq_r].
      destruct (IH seen) as (Hs & Hl). split; [done|lia].
    + case_decide.
      * destruct (IH seen) as (Hs & Hl). split; [done|lia].
      * simpl. split; [apply union_subseteq_r|lia].
    + simpl. split; [done|lia].
  - split; [done|lia].
Qed.

(** X29. Nothing that comes after the end of the stream is delivered.  A
    stream that has gone through its packets without an exception returns
    at the close of the channel with the events it had yielded; a stream
    that has returned, or that a malformed packet has ended with an
    exception, is not changed by any packet that follows.  At most one
    event is yielded per packet, and no [ID] seen is ever forgotten. *)
Theorem stream_close (seen : gset string) (ps rest : list (option string)) :
  (GeckosClient.ended (GeckosClient.stream decode seen ps)
   = GeckosClient.Suspended ->
   GeckosClient.stream decode seen (ps ++ None :: rest)
   = GeckosClient.mk_run
       (GeckosClient.events (GeckosClient.stream decode seen ps))
       (GeckosClient.reliable_seen (GeckosClient.stream decode seen ps))
       GeckosClient.Returned)
  /\ (GeckosClient.ended (GeckosClient.stream decode seen ps)
      <> GeckosClient.Suspended ->
      GeckosClient.stream decode seen (ps ++ rest)
      = GeckosClient.stream decode seen ps)
  /\ GeckosClient.stream decode seen (ps ++ None :: rest)
     = GeckosClient.stream decode seen (ps ++ [None])
  /\ seen ⊆ GeckosClient.reliable_seen (GeckosClient.stream decode seen ps)
  /\ (length (GeckosClient.events (GeckosClient.stream decode seen ps))
      <= length ps)%nat.
Proof.
  split; [by apply stream_suspended|]. split; [by apply stream_ended|].
  split; [|apply stream_grows].
  destruct (GeckosClient.ended (GeckosClient.stream decode seen ps)) eqn:He.
  - by rewrite !stream_suspended.
  - rewrite !stream_ended; [done| |]; by rewrite He.
  - rewrite !stream_ended; [done| |]; by rewrite He.
Qed.

(** A packet that parses without being a well-formed object ends the stream
    with the exception of the read that fails, after the events of the
    packets before it. *)
Lemma stream_malformed (seen : gset string) (p : string) (e : exn)
    (rest : list (option string)) :
  GeckosClient.likely_json p = true ->
  decode p = Some (GeckosClient.Malformed e) ->
  GeckosClient.stream decode seen (Some p :: rest)
  = GeckosClient.mk_run [] seen (GeckosClient.Raised e).
Proof. intros Hp Hd. simpl. by rewrite Hp, Hd. Qed.
End StreamProperties.

Lemma stream_never_twice_witness :
  (("id1" : string) ∈ ({["id1"]} : gset string) ->
   GeckosClient.stream
     (fun s => if decide (s = "{}")
               then Some (GeckosClient.Reliable "chat" "id1" 5%Z) else None)
     {["id1"]} ([Some "0|1"] ++ Some "{}" :: [None])
   = GeckosClient.stream
       (fun s => if decide (s = "{}")
                 then Some (GeckosClient.Reliable "chat" "id1" 5%Z) else None)
       {["id1"]} ([Some "0|1"] ++ [None]))
  /\ (GeckosClient.likely_json "{}" = true ->
      (if decide ("{}" = "{}")
       then Some (GeckosClient.Reliable "chat" "id1" 5%Z) else None)
      = Some (GeckosClient.Reliable "chat" "id1" 5%Z) ->
      GeckosClient.stream
        (fun s => if decide (s = "{}")
                  then Some (GeckosClient.Reliable "chat" "id1" 5%Z) else None)
        {["id1"]} ([] ++ Some "{}" :: [Some "0|1"] ++ Some "{}" :: [None])
      = GeckosClient.stream
          (fun s => if decide (s = "{}")
                    then Some (GeckosClient.Reliable "chat" "id1" 5%Z) else None)
          {["id1"]} ([] ++ Some "{}" :: [Some "0|1"] ++ [None])).
Proof.
  apply (stream_never_twice
           (fun s => if decide (s = "{}")
                     then Some (GeckosClient.Reliable "chat" "id1" 5%Z)
                     else None)
           "{}" "chat" "id1" 5%Z {["id1"]} [] [Some "0|1"] [None]
           "{}" "chat" 5%Z).
  - reflexivity.
  - reflexivity.
Defined.

Lemma contains_app (a : ascii) (w w' : string) :
  contains a (w ++ w')%string = contains a w || contains a w'.
Proof.
  induction w as [|b w IH]; simpl; [done|]. by rewrite IH, orb_assoc.
Qed.

Lemma contains_join (a sep : ascii) (l : list string) :
  Ascii.eqb sep a = false ->
  Forall (fun w => contains a w = false) l ->
  contains a (join sep l) = false.
Proof.
  intros Hsep. induction l as [|w l IH]; intros Hall; [done|].
  apply Forall_cons in Hall as [Hw Hl].
  destruct l as [|w' l]; [done|].
  change (join sep (w :: w' :: l))
    with (w ++ String sep (join sep (w' :: l)))%string.
  rewrite contains_app, Hw. simpl. rewrite Hsep. simpl. by apply IH.
Qed.

Lemma decimal_str_plain (z : Z) :
  GeckosClient.likely_json (decimal_str z) = false.
Proof.
  assert (H : forall d,
             GeckosClient.likely_json (NilEmpty.string_of_uint d) = false).
  { unfold GeckosClient.likely_json.
    induction d; simpl in *; done. }
  unfold decimal_str. destruct (Z.to_int z); [apply H|].
  specialize (H d). unfold GeckosClient.likely_json in *. simpl. exact H.
Qed.

Section Delivery.
Context {json : Type}.
Variable decode : string -> option (GeckosClient.decoded json).
Variable py_str : Z -> string.
Hypothesis str_plain : forall z, GeckosClient.likely_json (py_str z) = false.

(** X30. A position update is never taken for JSON: with [str] writing
    numerals free of braces and brackets, the payload a client sends is
    yielded by the stream of its peer as a [_rawstr] event carrying the
    payload unchanged, whatever has been seen before, and the stream goes
    on with what it had seen. *)
Theorem update_delivered_raw (c : XivSimClient.t) (payload : string)
    (seen : gset string) (ps : list (option string)) :
  player_update_payload py_str c = Some payload ->
  GeckosClient.likely_json payload = false
  /\ GeckosClient.stream decode seen (Some payload :: ps)
     = GeckosClient.yield
         (GeckosClient.mk_Event "_rawstr" (GeckosClient.Str payload))
         (GeckosClient.stream decode seen ps).
Proof.
  intros Hpl.
  assert (Hl : GeckosClient.likely_json payload = false).
  { unfold player_update_payload in Hpl.
    destruct (XivSimClient.player_update_fields c) as [fields|];
      simpl in Hpl; [|done].
    injection Hpl as <-.
    assert (Hall : forall a,
               (forall z, contains a (py_str z) = false) ->
               Forall (fun w => contains a w = false) (py_str <$> fields)).
    { intros a Ha. apply Forall_fmap, Forall_forall. intros z _. apply Ha. }
    assert (Hs : forall z,
               contains "{" (py_str z) = false
               /\ contains "}" (py_str z) = false
               /\ contains "[" (py_str z) = false
               /\ contains "]" (py_str z) = false).
    { intros z. specialize (str_plain z).
      unfold GeckosClient.likely_json in str_plain.
      repeat (apply orb_false_iff in str_plain as [str_plain ?]). done. }
    unfold GeckosClient.likely_json.
    rewrite !contains_join; [done| | | | | | | |]; try done;
      apply Hall; intros z; apply Hs. }
  split; [exact Hl|]. simpl. by rewrite Hl.
Qed.
End Delivery.

Lemma update_delivered_raw_witness :
  GeckosClient.likely_json "0|1|0|0|10000|0|0|0|0" = false
  /\ GeckosClient.stream (fun _ : string => @None (GeckosClient.decoded Z))
       ∅ (Some "0|1|0|0|10000|0|0|0|0" :: [None])
     = GeckosClient.yield
         (GeckosClient.mk_Event "_rawstr"
            (GeckosClient.Str "0|1|0|0|10000|0|0|0|0"))
         (GeckosClient.stream (fun _ : string => @None (GeckosClient.decoded Z))
            ∅ [None]).
Proof.
  apply (update_delivered_raw (fun _ : string => @None (GeckosClient.decoded Z))
           decimal_str decimal_str_plain
           (XivSimClient.mk None (Some 1%Z)
              (SimState.add_player SimState.init 1 "hi") None)
           "0|1|0|0|10000|0|0|0|0" ∅ [None]).
  unfold player_update_payload, XivSimClient.player_update_fields. simpl.
  rewrite lookup_insert_eq. simpl.
  replace (trunc (10000 * cos 0)) with 10000%Z.
  2:{ symmetry. apply trunc_unique. rewrite cos_0. left. lra. }
  replace (trunc (10000 * sin 0)) with 0%Z.
  2:{ symmetry. apply trunc_unique. rewrite sin_0. left. lra. }
  reflexivity.
Defined.
